(** * The journey/step execution engine of the synthetics runner

    A shallow embedding of [Runner] (the class in core/runner.ts): its
    methods [runStep], [runSteps], [registerJourney], [endJourney],
    [runJourney], [run] and [reset], written as programs of a small
    state-and-exception monad that also records, in order, every event the
    runner emits and every call it makes to its collaborators (driver,
    plugin manager, hooks, journey and step callbacks).

    What is left out of the embedding: the debug [log] lines, and the
    monotonic and wall-clock timestamps carried by the event payloads. *)

From Stdlib Require Import List String Bool Arith Lia.
Import ListNotations.
Local Open Scope string_scope.
Local Open Scope list_scope.

Set Implicit Arguments.

(** ** Values *)

(** [StatusValue] of common_types. *)
Inductive StatusValue : Type := succeeded | failed | skipped.

Definition StatusValue_eqb (a b : StatusValue) : bool :=
  match a, b with
  | succeeded, succeeded | failed, failed | skipped, skipped => true
  | _, _ => false
  end.

(** A value that is thrown, or with which a promise is rejected.  The
    [error?: Error] fields of [StepResult] and [JourneyResult] declare an
    [Error] object, but [catch (error)] receives whatever was thrown: an
    [Error] object ([mkError]), or any other value, such as the [undefined]
    of a promise rejected without a reason.  [JsValue] is a value of any
    other kind (a number, a bigint, a symbol, an object that is not an
    [Error]), given by its printed form and its truthiness. *)
Inductive Thrown : Type :=
| mkError (message : string)
| JsUndefined
| JsNull
| JsString (s : string)
| JsBoolean (b : bool)
| JsValue (printed : string) (isTruthy : bool).

(** The truthiness of a thrown value, as [if (data.error)] tests it: an
    object is truthy; [undefined], [null], the empty string and [false] are
    not. *)
Definition truthy (v : Thrown) : bool :=
  match v with
  | mkError _ => true
  | JsUndefined | JsNull => false
  | JsString s => negb (String.eqb s "")
  | JsBoolean b => b
  | JsValue _ isTruthy => isTruthy
  end.

(** How a call into a collaborator or into user code ends: it returns a
    value, or it throws (for an awaited promise: it rejects). *)
Inductive Completion (A : Type) : Type :=
| Normal (a : A)
| Throw (e : Thrown).
Arguments Normal {A} a.
Arguments Throw {A} e.

Definition Metrics := list (string * nat).
Definition RunParamaters := list (string * string).

(** Modelled from the spec: [VoidCallback] (common_types) is a zero-argument
    callback with no return value; all the runner sees of one is whether the
    call settles normally or throws.  [settle] is how the call made during
    the run under consideration settles: nothing is said of how the same
    callback settles when a later run calls it again. *)
Record VoidCallback : Type := mkCallback {
  label : string;
  settle : Completion unit
}.

(** Modelled from the spec: a request seen on the driver's page, with the
    two methods [captureUrl] calls on it. *)
Module Request.
Record t : Type := mk { isNavigationRequest : bool; url : string }.
End Request.

(** Modelled from the spec: [Step] (dsl/step) has a name and a callback.
    The callback is given by what the runner can observe of it: the requests
    the page emits while it runs, and how it settles. *)
Module Step.
Record t : Type := mk {
  name : string;
  requests : list Request.t;
  callback : Completion unit
}.
End Step.

Module Hooks.
Record t : Type := mk { before : list VoidCallback; after : list VoidCallback }.
End Hooks.

(** Modelled from the spec: [Journey] (dsl/journey).  The runner reads four
    members: [name], [callback] (the registration callback, which populates
    the step list and may throw), [steps] (read by [runSteps] only after the
    callback has returned: the list as registration left it) and [hooks]. *)
Module Journey.
Record t : Type := mk {
  name : string;
  callback : Completion unit;
  steps : list Step.t;
  hooks : Hooks.t
}.
End Journey.

(** Modelled from the spec: the page of a [Driver] (core/gatherer).  The
    answers of the page are given per step during which they are asked. *)
Module Page.
Record t : Type := mk {
  url : Step.t -> string;
  waitForLoadState : Step.t -> Completion unit;
  screenshot : Step.t -> Completion string
}.
End Page.

Module Driver.
Record t : Type := mk { id : nat; page : Page.t }.
End Driver.

Module PluginOutput.
Record t : Type := mk {
  filmstrips : list string;
  networkinfo : list string;
  browserconsole : list string
}.
End PluginOutput.

(** Modelled from the spec: [PluginManager] (plugins): the pre-step hook
    [onStep], the performance manager's [getMetrics] and [output].  The
    answers are given per step.  [onStep] is called and not awaited: its
    completion is that of the call itself, which returns (a promise, if the
    hook is asynchronous: the runner never looks at it) or throws. *)
Module PluginManager.
Record t : Type := mk {
  onStep : Step.t -> Completion unit;
  getMetrics : Step.t -> Completion Metrics;
  output : Completion PluginOutput.t
}.
End PluginManager.

(** The reporter option: a constructor, the name of a built-in one, or
    nothing. *)
Inductive ReporterOption : Type :=
| ReporterFunction (ctor : string)
| ReporterName (n : string)
| ReporterUnset.

(** The members of [RunOptions] the engine reads. *)
Module RunOptions.
Record t : Type := mk {
  params : RunParamaters;
  metrics : bool;
  screenshots : bool;
  pauseOnError : bool;
  journeyName : option string;
  dryRun : bool;
  reporter : ReporterOption
}.
End RunOptions.

(** Modelled from the spec: the static interface of [Gatherer]
    (core/gatherer): [setupDriver], [beginRecording] and [dispose]. *)
Module Gatherer.
Record t : Type := mk {
  setupDriver : RunOptions.t -> Completion Driver.t;
  beginRecording : Driver.t -> RunOptions.t -> Completion PluginManager.t;
  dispose : Driver.t -> Completion unit
}.
End Gatherer.

(** Modelled from the spec: the [reporters] table (reporters), which has a
    ['default'] entry. *)
Module Reporters.
Record t : Type := mk { named : string -> option string; default : string }.
End Reporters.

(** The collaborators of a run.  [Gatherer] is consulted once per journey;
    its answers are given per journey being run. *)
Module World.
Record t : Type := mk {
  gatherer : Journey.t -> Gatherer.t;
  reporters : Reporters.t
}.
End World.

Module JourneyContext.
Record t : Type := mk {
  params : RunParamaters;
  driver : Driver.t;
  pluginManager : PluginManager.t
}.
End JourneyContext.

Module StepResult.
Record t : Type := mk {
  status : StatusValue;
  url : option string;
  metrics : option Metrics;
  error : option Thrown;
  screenshot : option string
}.
(** The object literal [{ status: s }]. *)
Definition init (s : StatusValue) : t := mk s None None None None.
End StepResult.

Module JourneyResult.
Record t : Type := mk { status : StatusValue; error : option Thrown }.
End JourneyResult.

(** [RunResult = Record<string, JourneyResult>], an object created as
    [{}]: the assignments [result[k] = v] made to it, one pair per name, in
    the order in which the names were first assigned.  A pair under the
    name ["__proto__"] stands for the prototype of the object, which is what
    the assignment [result["__proto__"] = v] sets: reading that name gives
    [v] back, but the object gets no own key of that name. *)
Definition RunResult := list (string * JourneyResult.t).

(** [result[k] = v].  Under any name but ["__proto__"] this creates the own
    key [k], or overwrites its value when the key is there already (a name
    inherited from [Object.prototype], such as ["toString"], is shadowed by
    an own key like any other).  Under ["__proto__"] it records the new
    prototype; [keys] below passes over that pair. *)
Fixpoint assign (r : RunResult) (k : string) (v : JourneyResult.t) : RunResult :=
  match r with
  | [] => [(k, v)]
  | (k', v') :: r' => if String.eqb k' k then (k, v) :: r' else (k', v') :: assign r' k v
  end.

(** ** Events *)

(** The catalogue [Events], each event with its payload. *)
Inductive Event : Type :=
| Ev_start (numJourneys : nat)
| Ev_journey_register (journey : Journey.t)
| Ev_journey_start (journey : Journey.t) (params : RunParamaters)
| Ev_journey_end (journey : Journey.t) (status : StatusValue)
    (error : option Thrown) (params : RunParamaters)
    (filmstrips networkinfo : list string) (browserconsole : option (list string))
| Ev_step_start (journey : Journey.t) (step : Step.t)
| Ev_step_end (journey : Journey.t) (step : Step.t) (data : StepResult.t)
| Ev_end.

(** What an observer of the engine sees, in order: the events emitted and
    the calls made to collaborators and to user code.  [AwaitStdin] is the
    wait of [pauseOnError] for data on standard input; the embedding records
    the wait and goes on as the run does once the data arrives. *)
Inductive Action : Type :=
| Emit (e : Event)
| NewReporter (ctor : string)
| CallHook (cb : VoidCallback)
| SetupDriver
| BeginRecording (driver : nat)
| Dispose (driver : nat)
| CallJourney (journey : Journey.t)
| OnStep (step : Step.t)
| CallStep (step : Step.t)
| GetMetrics (step : Step.t)
| PageUrl (step : Step.t)
| WaitForLoadState (step : Step.t)
| Screenshot (step : Step.t)
| Output (journey : Journey.t)
| AwaitStdin.

Definition Trace := list Action.

(** ** The monad of the embedding *)

(** A program over a mutable state [S]: it ends with a completion, a new
    state (kept when it throws) and the actions it performed. *)
Definition Prog (S A : Type) : Type := S -> Completion A * S * Trace.

Section Monad.
Context {S : Type}.

Definition ret {A} (a : A) : Prog S A := fun s => (Normal a, s, []).

Definition throw {A} (e : Thrown) : Prog S A := fun s => (Throw e, s, []).

Definition bind {A B} (m : Prog S A) (f : A -> Prog S B) : Prog S B :=
  fun s =>
    match m s with
    | (Normal a, s1, t1) =>
        match f a s1 with (c, s2, t2) => (c, s2, t1 ++ t2) end
    | (Throw e, s1, t1) => (Throw e, s1, t1)
    end.

Definition get : Prog S S := fun s => (Normal s, s, []).

Definition modify (f : S -> S) : Prog S unit := fun s => (Normal tt, f s, []).

Definition tell (t : Trace) : Prog S unit := fun s => (Normal tt, s, t).

(** A call to a collaborator: the call is observed, then it completes. *)
Definition call {A} (a : Action) (c : Completion A) : Prog S A :=
  fun s => (c, s, [a]).

(** [try { m } catch (e) { h e }] *)
Definition try_catch {A} (m : Prog S A) (h : Thrown -> Prog S A) : Prog S A :=
  fun s =>
    match m s with
    | (Throw e, s1, t1) =>
        match h e s1 with (c, s2, t2) => (c, s2, t1 ++ t2) end
    | r => r
    end.

(** [try { m } finally { f }]: [f] runs however [m] completed; the
    completion of [m] stands unless [f] itself throws. *)
Definition try_finally {A} (m : Prog S A) (f : Prog S unit) : Prog S A :=
  fun s =>
    match m s with
    | (c, s1, t1) =>
        match f s1 with
        | (Normal _, s2, t2) => (c, s2, t1 ++ t2)
        | (Throw e, s2, t2) => (Throw e, s2, t1 ++ t2)
        end
    end.

Definition when (b : bool) (m : Prog S unit) : Prog S unit :=
  if b then m else ret tt.
End Monad.

(** A block that works on a local variable: [m] runs on [s0], the enclosing
    state is untouched, and the final value of the variable is returned. *)
Definition with_local {S L A : Type} (s0 : L) (m : Prog L A) : Prog S L :=
  fun s =>
    match m s0 with
    | (Normal _, l, t) => (Normal l, s, t)
    | (Throw e, _, t) => (Throw e, s, t)
    end.

Declare Scope prog_scope.
Delimit Scope prog_scope with prog.
Notation "x <- m ;; k" := (bind m (fun x => k))
  (at level 61, m at next level, right associativity) : prog_scope.
Notation "m ;; k" := (bind m (fun _ => k))
  (at level 61, right associativity) : prog_scope.
Local Open Scope prog_scope.

(** ** The runner *)

Module SuiteHooks.
Record t : Type := mk { beforeAll : list VoidCallback; afterAll : list VoidCallback }.
End SuiteHooks.

(** The fields of a [Runner] instance.  Its [eventEmitter] is the [Emit]
    actions of the trace. *)
Module Runner.
Record t : Type := mk {
  active : bool;
  currentJourney : option Journey.t;
  journeys : list Journey.t;
  hooks : SuiteHooks.t
}.
End Runner.

Definition emit {S} (e : Event) : Prog S unit := tell [Emit e].

(** Modelled from the spec: [runParallel] (helpers) starts every callback
    and waits for all of them; it fails with the first failure, if any.
    [firstRejection] is that failure. *)
Fixpoint firstRejection (cbs : list VoidCallback) : option Thrown :=
  match cbs with
  | [] => None
  | cb :: rest =>
      match settle cb with
      | Throw e => Some e
      | Normal _ => firstRejection rest
      end
  end.

(** Modelled from the spec: [runParallel] calls every callback, then fails
    if one of them failed. *)
Definition runParallel {S} (cbs : list VoidCallback) : Prog S unit :=
  tell (map CallHook cbs) ;;
  match firstRejection cbs with
  | Some e => throw e
  | None => ret tt
  end.

Definition createContext {S} (G : Gatherer.t) (options : RunOptions.t)
  : Prog S JourneyContext.t :=
  driver <- call SetupDriver (Gatherer.setupDriver G options) ;;
  pluginManager <- call (BeginRecording (Driver.id driver))
                     (Gatherer.beginRecording G driver options) ;;
  ret (JourneyContext.mk (RunOptions.params options) driver pluginManager).

Definition runBeforeAllHook : Prog Runner.t unit :=
  this <- get ;; runParallel (SuiteHooks.beforeAll (Runner.hooks this)).

Definition runAfterAllHook : Prog Runner.t unit :=
  this <- get ;; runParallel (SuiteHooks.afterAll (Runner.hooks this)).

Definition runBeforeHook {S} (journey : Journey.t) : Prog S unit :=
  runParallel (Hooks.before (Journey.hooks journey)).

Definition runAfterHook {S} (journey : Journey.t) : Prog S unit :=
  runParallel (Hooks.after (Journey.hooks journey)).

(** *** runStep *)

(** What the closure [captureUrl] reads and writes: [data.url], and whether
    the closure is still subscribed to the page's ['request'] event. *)
Record Capture : Type := mkCapture { data_url : option string; subscribed : bool }.

(** [!data.url]: the field is absent or the empty string. *)
Definition not_url (u : option string) : bool :=
  match u with
  | None => true
  | Some s => String.eqb s ""
  end.

Definition captureUrl (req : Request.t) (c : Capture) : Capture :=
  {| data_url := if not_url (data_url c) && Request.isNavigationRequest req
                 then Some (Request.url req)
                 else data_url c;
     (* driver.page.off('request', captureUrl) *)
     subscribed := false |}.

(** The page emits ['request']: the listener is called if it is still
    subscribed. *)
Definition onRequest (c : Capture) (req : Request.t) : Capture :=
  if subscribed c then captureUrl req c else c.

Definition deliver (reqs : list Request.t) (c : Capture) : Capture :=
  fold_left onRequest reqs c.

Definition set_url (u : option string) (d : StepResult.t) : StepResult.t :=
  StepResult.mk (StepResult.status d) u (StepResult.metrics d)
    (StepResult.error d) (StepResult.screenshot d).

Definition set_metrics (m : Metrics) (d : StepResult.t) : StepResult.t :=
  StepResult.mk (StepResult.status d) (StepResult.url d) (Some m)
    (StepResult.error d) (StepResult.screenshot d).

Definition set_failed (e : Thrown) (d : StepResult.t) : StepResult.t :=
  StepResult.mk failed (StepResult.url d) (StepResult.metrics d)
    (Some e) (StepResult.screenshot d).

Definition set_screenshot (s : string) (d : StepResult.t) : StepResult.t :=
  StepResult.mk (StepResult.status d) (StepResult.url d) (StepResult.metrics d)
    (StepResult.error d) (Some s).

(** [await step.callback()]: while the callback runs the page emits the
    step's requests, which reach [captureUrl] (subscribed just before the
    [try]); then the callback settles. *)
Definition awaitCallback (step : Step.t) : Prog StepResult.t unit :=
  modify (fun data =>
    set_url (data_url (deliver (Step.requests step)
                         (mkCapture (StepResult.url data) true))) data) ;;
  call (CallStep step) (Step.callback step).

(** The body of [runStep], a program on the local variable [data]. *)
Definition runStep_body (step : Step.t) (context : JourneyContext.t)
    (options : RunOptions.t) : Prog StepResult.t unit :=
  let driver := JourneyContext.driver context in
  let pluginManager := JourneyContext.pluginManager context in
  try_finally
    (try_catch
       (call (OnStep step) (PluginManager.onStep pluginManager step) ;;
        awaitCallback step ;;
        when (RunOptions.metrics options)
          (m <- call (GetMetrics step) (PluginManager.getMetrics pluginManager step) ;;
           modify (set_metrics m)))
       (fun error => modify (set_failed error)))
    ((* data.url ??= driver.page.url() *)
     data <- get ;;
     match StepResult.url data with
     | Some _ => ret tt
     | None =>
         tell [PageUrl step] ;;
         modify (set_url (Some (Page.url (Driver.page driver) step)))
     end ;;
     when (RunOptions.screenshots options)
       (call (WaitForLoadState step) (Page.waitForLoadState (Driver.page driver) step) ;;
        shot <- call (Screenshot step) (Page.screenshot (Driver.page driver) step) ;;
        modify (set_screenshot shot))).

Definition runStep {S} (step : Step.t) (context : JourneyContext.t)
    (options : RunOptions.t) : Prog S StepResult.t :=
  with_local (StepResult.init succeeded) (runStep_body step context options).

(** *** runSteps *)

(** [data.error] as a condition: the field holds a truthy value. *)
Definition has_error (data : StepResult.t) : bool :=
  match StepResult.error data with
  | Some v => truthy v
  | None => false
  end.

(** The [for (const step of journey.steps)] loop, from the steps still to
    visit, the flag [skipStep] and the [results] pushed so far. *)
Fixpoint runSteps_loop (journey : Journey.t) (context : JourneyContext.t)
    (options : RunOptions.t) (steps : list Step.t) (skipStep : bool)
    (results : list StepResult.t) : Prog Runner.t (list StepResult.t) :=
  match steps with
  | [] => ret results
  | step :: rest =>
      emit (Ev_step_start journey step) ;;
      data <- (if skipStep
               then ret (StepResult.init skipped)
               else runStep step context options) ;;
      (* skip next steps if the previous step returns error *)
      let skipStep := if skipStep then true else has_error data in
      emit (Ev_step_end journey step data) ;;
      when (RunOptions.pauseOnError options && has_error data) (tell [AwaitStdin]) ;;
      runSteps_loop journey context options rest skipStep (results ++ [data])
  end.

Definition runSteps (journey : Journey.t) (context : JourneyContext.t)
    (options : RunOptions.t) : Prog Runner.t (list StepResult.t) :=
  runSteps_loop journey context options (Journey.steps journey) false [].

(** *** registerJourney, endJourney, runJourney *)

Definition set_currentJourney (j : option Journey.t) (this : Runner.t) : Runner.t :=
  Runner.mk (Runner.active this) j (Runner.journeys this) (Runner.hooks this).

Definition registerJourney (journey : Journey.t) (context : JourneyContext.t)
  : Prog Runner.t unit :=
  modify (set_currentJourney (Some journey)) ;;
  emit (Ev_journey_start journey (JourneyContext.params context)) ;;
  call (CallJourney journey) (Journey.callback journey).

Definition endJourney (journey : Journey.t) (context : JourneyContext.t)
    (result : JourneyResult.t) : Prog Runner.t unit :=
  out <- call (Output journey)
           (PluginManager.output (JourneyContext.pluginManager context)) ;;
  emit (Ev_journey_end journey
          (JourneyResult.status result) (JourneyResult.error result)
          (JourneyContext.params context)
          (PluginOutput.filmstrips out) (PluginOutput.networkinfo out)
          (if StatusValue_eqb (JourneyResult.status result) failed
           then Some (PluginOutput.browserconsole out) else None)).

(** Mark journey as failed if any intermediate step fails. *)
Definition markFailed (result : JourneyResult.t) (stepResult : StepResult.t)
  : JourneyResult.t :=
  if StatusValue_eqb (StepResult.status stepResult) failed
  then JourneyResult.mk (StepResult.status stepResult) (StepResult.error stepResult)
  else result.

(** The [try] block of [runJourney]; its value is [result] as the block
    leaves it. *)
Definition runJourney_try (journey : Journey.t) (context : JourneyContext.t)
    (options : RunOptions.t) : Prog Runner.t JourneyResult.t :=
  registerJourney journey context ;;
  runBeforeHook journey ;;
  stepResults <- runSteps journey context options ;;
  let result := fold_left markFailed stepResults (JourneyResult.mk succeeded None) in
  runAfterHook journey ;;
  ret result.

(** [try { ... } catch (e) { result.status = 'failed'; result.error = e }]:
    the [catch] block overwrites both fields of [result], so [result] after
    [try]/[catch] is the value of the one block or of the other.  The [catch]
    block cannot throw, so the [finally] block of [runJourney] runs on that
    value, and what follows it returns that value. *)
Definition runJourney_try_catch (journey : Journey.t) (context : JourneyContext.t)
    (options : RunOptions.t) : Prog Runner.t JourneyResult.t :=
  try_catch (runJourney_try journey context options)
    (fun e => ret (JourneyResult.mk failed (Some e))).

Definition runJourney (G : Gatherer.t) (journey : Journey.t)
    (options : RunOptions.t) : Prog Runner.t JourneyResult.t :=
  context <- createContext G options ;;
  result <- runJourney_try_catch journey context options ;;
  (* finally *)
  endJourney journey context result ;;
  call (Dispose (Driver.id (JourneyContext.driver context)))
    (Gatherer.dispose G (JourneyContext.driver context)) ;;
  ret result.

(** *** run, reset *)

Definition reset : Prog Runner.t unit :=
  modify (fun this => Runner.mk false None [] (Runner.hooks this)).

Definition set_active (b : bool) (this : Runner.t) : Runner.t :=
  Runner.mk b (Runner.currentJourney this) (Runner.journeys this) (Runner.hooks this).

(** [typeof reporter === 'function' ? reporter
      : reporters[reporter] || reporters['default']] *)
Definition resolveReporter (R : Reporters.t) (reporter : ReporterOption) : string :=
  match reporter with
  | ReporterFunction ctor => ctor
  | ReporterName n =>
      match Reporters.named R n with
      | Some ctor => ctor
      | None => Reporters.default R
      end
  | ReporterUnset => Reporters.default R
  end.

(** [journeyName && journey.name != journeyName] *)
Definition filteredOut (options : RunOptions.t) (journey : Journey.t) : bool :=
  match RunOptions.journeyName options with
  | Some n => negb (String.eqb n "") && negb (String.eqb (Journey.name journey) n)
  | None => false
  end.

(** The [for (const journey of this.journeys)] loop of [run]. *)
Fixpoint run_loop (W : World.t) (options : RunOptions.t)
    (journeys : list Journey.t) (result : RunResult) : Prog Runner.t RunResult :=
  match journeys with
  | [] => ret result
  | journey :: rest =>
      if RunOptions.dryRun options then
        emit (Ev_journey_register journey) ;;
        run_loop W options rest result
      else if filteredOut options journey then
        run_loop W options rest result
      else
        journeyResult <- runJourney (World.gatherer W journey) journey options ;;
        run_loop W options rest (assign result (Journey.name journey) journeyResult)
  end.

Definition run (W : World.t) (options : RunOptions.t) : Prog Runner.t RunResult :=
  this <- get ;;
  if Runner.active this then ret []
  else
    modify (set_active true) ;;
    tell [NewReporter (resolveReporter (World.reporters W) (RunOptions.reporter options))] ;;
    emit (Ev_start (List.length (Runner.journeys this))) ;;
    runBeforeAllHook ;;
    result <- run_loop W options (Runner.journeys this) [] ;;
    runAfterAllHook ;;
    reset ;;
    emit Ev_end ;;
    ret result.

(** ** Reading a trace *)

Definition events (t : Trace) : list Event :=
  flat_map (fun a => match a with Emit e => [e] | _ => [] end) t.

Definition disposals (d : nat) (t : Trace) : nat :=
  List.length (filter (fun a => match a with Dispose d' => Nat.eqb d' d | _ => false end) t).

(** The steps handed to the step executor (each call of [runStep] begins
    with [pluginManager.onStep(step)]). *)
Definition executed (t : Trace) : list Step.t :=
  flat_map (fun a => match a with OnStep s => [s] | _ => [] end) t.

Definition hookCalls (t : Trace) : list VoidCallback :=
  flat_map (fun a => match a with CallHook cb => [cb] | _ => [] end) t.

Definition completion {S A} (r : Completion A * S * Trace) : Completion A := fst (fst r).
Definition state_of {S A} (r : Completion A * S * Trace) : S := snd (fst r).
Definition trace_of {S A} (r : Completion A * S * Trace) : Trace := snd r.

(** ** Sample collaborators, steps and journeys *)

Module Sample.
Definition page : Page.t :=
  Page.mk (fun _ => "about:blank") (fun _ => Normal tt) (fun _ => Normal "/9j/4AAQ").

Definition driver : Driver.t := Driver.mk 7 page.

Definition plugins : PluginManager.t :=
  PluginManager.mk (fun _ => Normal tt) (fun _ => Normal [("fcp", 120)])
    (Normal (PluginOutput.mk ["film"] ["net"] ["console"])).

Definition gatherer : Gatherer.t :=
  Gatherer.mk (fun _ => Normal driver) (fun _ _ => Normal plugins) (fun _ => Normal tt).

Definition context : JourneyContext.t := JourneyContext.mk [] driver plugins.

Definition options : RunOptions.t :=
  RunOptions.mk [] false false false None false ReporterUnset.

Definition reporters : Reporters.t := Reporters.mk (fun _ => None) "default".

Definition world : World.t := World.mk (fun _ => gatherer) reporters.

Definition x : Thrown := mkError "x".
Definition y : Thrown := mkError "y".

Definition A : Step.t :=
  Step.mk "A" [Request.mk true "http://localhost/a"] (Normal tt).
Definition B : Step.t := Step.mk "B" [] (Throw x).
Definition C : Step.t := Step.mk "C" [] (Normal tt).

Definition noHooks : Hooks.t := Hooks.mk [] [].

(** steps [A (succeeds), B (throws "x"), C (succeeds)] *)
Definition J : Journey.t := Journey.mk "J" (Normal tt) [A; B; C] noHooks.
Definition J1 : Journey.t := Journey.mk "J1" (Normal tt) [A; C] noHooks.

Definition idle : Runner.t := Runner.mk false None [J1; J] (SuiteHooks.mk [] []).
Definition busy : Runner.t := Runner.mk true (Some J1) [J1; J] (SuiteHooks.mk [] []).
End Sample.

(** ** Notions used by the statements *)

(** An earlier result, before position [i], is [failed]. *)
Definition failedBefore (results : list StepResult.t) (i : nat) : Prop :=
  exists k d, k < i /\ nth_error results k = Some d /\ StepResult.status d = failed.

(** A result is [skipped] exactly when an earlier one is [failed]. *)
Definition skipLaw (results : list StepResult.t) : Prop :=
  forall i d, nth_error results i = Some d ->
    (StepResult.status d = skipped <-> failedBefore results i).

(** The events of one step. *)
Definition stepEvents (journey : Journey.t) (sd : Step.t * StepResult.t) : list Event :=
  [Ev_step_start journey (fst sd); Ev_step_end journey (fst sd) (snd sd)].

Definition skippedResults (steps : list Step.t) : list StepResult.t :=
  map (fun _ => StepResult.init skipped) steps.

(** An earlier result, before position [i], holds a truthy error. *)
Definition erroredBefore (results : list StepResult.t) (i : nat) : Prop :=
  exists k d, k < i /\ nth_error results k = Some d /\ has_error d = true.

(** A result is [skipped] exactly when an earlier one holds a truthy
    error. *)
Definition skipRule (results : list StepResult.t) : Prop :=
  forall i d, nth_error results i = Some d ->
    (StepResult.status d = skipped <-> erroredBefore results i).

(** The invariant of the loop: the results pushed so far obey [skipRule],
    and the flag is set exactly when one of them holds a truthy error. *)
Definition loopInv (skipStep : bool) (results : list StepResult.t) : Prop :=
  skipRule results /\
  (skipStep = true <-> erroredBefore results (List.length results)).

(** The event [journey:end] that [endJourney] emits for a result and the
    output of the plugin manager. *)
Definition journeyEnd (journey : Journey.t) (ctx : JourneyContext.t)
    (result : JourneyResult.t) (out : PluginOutput.t) : Event :=
  Ev_journey_end journey
    (JourneyResult.status result) (JourneyResult.error result)
    (JourneyContext.params ctx)
    (PluginOutput.filmstrips out) (PluginOutput.networkinfo out)
    (if StatusValue_eqb (JourneyResult.status result) failed
     then Some (PluginOutput.browserconsole out) else None).

(** What registration performs. *)
Definition registrationTrace (journey : Journey.t) (ctx : JourneyContext.t) : Trace :=
  [Emit (Ev_journey_start journey (JourneyContext.params ctx)); CallJourney journey].

(** What the before-hooks and the after-hooks perform. *)
Definition beforeTrace (journey : Journey.t) : Trace :=
  map CallHook (Hooks.before (Journey.hooks journey)).
Definition afterTrace (journey : Journey.t) : Trace :=
  map CallHook (Hooks.after (Journey.hooks journey)).

(** What the [finally] block of [runJourney] performs. *)
Definition endingTrace (G : Gatherer.t) (journey : Journey.t)
    (ctx : JourneyContext.t) (result : JourneyResult.t) : Trace :=
  Output journey ::
  match PluginManager.output (JourneyContext.pluginManager ctx) with
  | Normal out =>
      [Emit (journeyEnd journey ctx result out);
       Dispose (Driver.id (JourneyContext.driver ctx))]
  | Throw _ => []
  end.

(** How the [finally] block completes. *)
Definition ending (G : Gatherer.t) (ctx : JourneyContext.t) : Completion unit :=
  match PluginManager.output (JourneyContext.pluginManager ctx) with
  | Normal _ => Gatherer.dispose G (JourneyContext.driver ctx)
  | Throw e => Throw e
  end.

(** What [run] performs before the loop over the journeys. *)
Definition openingTrace (W : World.t) (options : RunOptions.t) (this : Runner.t) : Trace :=
  [NewReporter (resolveReporter (World.reporters W) (RunOptions.reporter options));
   Emit (Ev_start (List.length (Runner.journeys this)))]
  ++ map CallHook (SuiteHooks.beforeAll (Runner.hooks this)).

(** The actions of the step loop: step events, the calls of the step
    executor, and the wait on standard input. *)
Definition stepAction (a : Action) : bool :=
  match a with
  | Emit (Ev_step_start _ _) | Emit (Ev_step_end _ _ _)
  | OnStep _ | CallStep _ | GetMetrics _ | PageUrl _
  | WaitForLoadState _ | Screenshot _ | AwaitStdin => true
  | _ => false
  end.

(** The actions of a journey execution. *)
Definition journeyAction (a : Action) : bool :=
  stepAction a ||
  match a with
  | Emit (Ev_journey_start _ _) | Emit (Ev_journey_end _ _ _ _ _ _ _)
  | SetupDriver | BeginRecording _ | Dispose _ | CallJourney _ | Output _
  | CallHook _ => true
  | _ => false
  end.

(** The actions a dry run is left with: the reporter, the run-level hooks,
    and the events [start], [journey:register] and [end]. *)
Definition dryRunAction (a : Action) : bool :=
  match a with
  | NewReporter _ | CallHook _
  | Emit (Ev_start _) | Emit (Ev_journey_register _) | Emit Ev_end => true
  | _ => false
  end.

Module Sample2.
Import Sample.

(** An [after] hook that throws "y". *)
Definition teardown : VoidCallback := mkCallback "teardown" (Throw y).

Definition Jy : Journey.t :=
  Journey.mk "Jy" (Normal tt) [A; B; C] (Hooks.mk [] [teardown]).
End Sample2.

(** Collaborators that fail. *)
Module Faulty.
Import Sample.

Definition boom : Thrown := mkError "boom".

(** The plugin manager whose [output] rejects. *)
Definition pluginsNoOutput : PluginManager.t :=
  PluginManager.mk (fun _ => Normal tt) (fun _ => Normal []) (Throw boom).

Definition gathererNoOutput : Gatherer.t :=
  Gatherer.mk (fun _ => Normal driver) (fun _ _ => Normal pluginsNoOutput)
    (fun _ => Normal tt).

(** [setupDriver] succeeds, [beginRecording] rejects. *)
Definition gathererNoRecording : Gatherer.t :=
  Gatherer.mk (fun _ => Normal driver) (fun _ _ => Throw boom) (fun _ => Normal tt).

(** [setupDriver] rejects. *)
Definition gathererNoDriver : Gatherer.t :=
  Gatherer.mk (fun _ => Throw boom) (fun _ _ => Normal plugins) (fun _ => Normal tt).

Definition worldNoDriver : World.t := World.mk (fun _ => gathererNoDriver) reporters.

(** The page whose screenshot capture rejects. *)
Definition pageNoScreenshot : Page.t :=
  Page.mk (fun _ => "about:blank") (fun _ => Normal tt) (fun _ => Throw boom).

Definition contextNoScreenshot : JourneyContext.t :=
  JourneyContext.mk [] (Driver.mk 7 pageNoScreenshot) plugins.

Definition gathererNoScreenshot : Gatherer.t :=
  Gatherer.mk (fun _ => Normal (Driver.mk 7 pageNoScreenshot))
    (fun _ _ => Normal plugins) (fun _ => Normal tt).

Definition withScreenshots : RunOptions.t :=
  RunOptions.mk [] false true false None false ReporterUnset.

Definition dry : RunOptions.t :=
  RunOptions.mk [] false false false None true ReporterUnset.

(** A hook that throws "y". *)
Definition failingHook : VoidCallback := mkCallback "hook" (Throw y).

(** A journey whose [before] hook throws. *)
Definition Jb : Journey.t :=
  Journey.mk "Jb" (Normal tt) [A; C] (Hooks.mk [failingHook] []).

(** A journey whose registration callback throws. *)
Definition Jr : Journey.t := Journey.mk "Jr" (Throw y) [] noHooks.

(** A runner whose [beforeAll] hook throws. *)
Definition idleFailingBeforeAll : Runner.t :=
  Runner.mk false None [J1; J] (SuiteHooks.mk [failingHook] []).

Definition idleFailingAfterAll : Runner.t :=
  Runner.mk false None [J1; J] (SuiteHooks.mk [] [failingHook]).

(** A step during which the page first emits a request that is not a
    navigation and then a navigation request (whose navigation fails: the
    page stays on about:blank). *)
Definition beacon : Request.t := Request.mk false "http://localhost/beacon".
Definition navigation : Request.t := Request.mk true "http://localhost/next".
Definition clickThrough : Step.t := Step.mk "click" [beacon; navigation] (Normal tt).

(** A step whose callback rejects with [undefined] (a bare
    [Promise.reject()]), and a journey that starts with it. *)
Definition silent : Step.t := Step.mk "silent" [] (Throw JsUndefined).
Definition Js : Journey.t := Journey.mk "Js" (Normal tt) [silent; C] noHooks.

(** A journey named [__proto__], and a runner on which it is registered. *)
Definition Jp : Journey.t := Journey.mk "__proto__" (Normal tt) [C] noHooks.
Definition idleProto : Runner.t := Runner.mk false None [J1; Jp] (SuiteHooks.mk [] []).
End Faulty.

(** The first navigation request among the requests of a step. *)
Fixpoint firstNavigation (reqs : list Request.t) : option string :=
  match reqs with
  | [] => None
  | req :: rest =>
      if Request.isNavigationRequest req then Some (Request.url req)
      else firstNavigation rest
  end.

(** The journeys announced by [journey:register] events, in order. *)
Definition registrations (t : Trace) : list Journey.t :=
  flat_map (fun a => match a with Emit (Ev_journey_register j) => [j] | _ => [] end) t.

(** The actions of the loop of [run]. *)
Definition loopAction (a : Action) : bool :=
  journeyAction a ||
  match a with
  | Emit (Ev_journey_register _) => true
  | _ => false
  end.

(** Calls of [run] one after the other on the same instance. *)
Fixpoint runAll (W : World.t) (calls : list RunOptions.t) : Prog Runner.t (list RunResult) :=
  match calls with
  | [] => ret []
  | options :: rest =>
      result <- run W options ;;
      results <- runAll W rest ;;
      ret (result :: results)
  end.

(** ** The rest of the runner: addHook, addJourney *)

Module HookType.
Inductive t : Type := beforeAll | afterAll.
End HookType.


(** [this.journeys.push(journey); this.currentJourney = journey] *)
Definition addJourney (journey : Journey.t) : Prog Runner.t unit :=
  modify (fun this =>
    Runner.mk (Runner.active this) (Some journey) (Runner.journeys this ++ [journey])
      (Runner.hooks this)).

(** Registration of several journeys, one call of [addJourney] after the
    other. *)
Fixpoint addJourneys (journeys : list Journey.t) : Prog Runner.t unit :=
  match journeys with
  | [] => ret tt
  | journey :: rest => addJourney journey ;; addJourneys rest
  end.

(** ** More readings of results and traces *)

(** The own keys of a [RunResult] (in the order of their first
    assignment; the statements use membership only), and the value read at
    a name that was assigned. *)
Definition keys (r : RunResult) : list string :=
  filter (fun k => negb (String.eqb k "__proto__")) (map fst r).

Fixpoint lookup (r : RunResult) (k : string) : option JourneyResult.t :=
  match r with
  | [] => None
  | (k', v) :: r' => if String.eqb k' k then Some v else lookup r' k
  end.

(** How often the run waited for standard input. *)
Definition waits (t : Trace) : nat :=
  List.length (filter (fun a => match a with AwaitStdin => true | _ => false end) t).

Definition is_failed (d : StepResult.t) : bool :=
  StatusValue_eqb (StepResult.status d) failed.

(** The [journey:end] events of a trace. *)
Definition journeyEnds (t : Trace) : list Event :=
  flat_map (fun a => match a with
                     | Emit (Ev_journey_end j s e p f n c) => [Ev_journey_end j s e p f n c]
                     | _ => []
                     end) t.

(** The journeys the loop of [run] executes: those the name filter lets
    through. *)
Definition selected (options : RunOptions.t) (journeys : list Journey.t) : list Journey.t :=
  filter (fun journey => negb (filteredOut options journey)) journeys.

(** The statuses of a step loop that returned: a run of [succeeded], then
    nothing more, or one [failed] followed by [skipped] only. *)
Definition stepStatuses (n m : nat) (stopped : bool) : list StatusValue :=
  repeat succeeded n ++ (if stopped then failed :: repeat skipped m else []).

(** ** push/monitor.ts: the schemas of the monitors to upload *)

(** [MonitorConfig] (dsl/monitor): the two members [buildMonitorSchema]
    reads, [name] and [locations], and the others, which the spread
    [...config] carries over as they are. *)
Module MonitorConfig.
Record t : Type := mk {
  name : string;
  locations : list string;
  others : list (string * string)
}.
End MonitorConfig.

(** [Monitor] (dsl/monitor): [source.file], [config] and [filter]. *)
Module Monitor.
Record t : Type := mk {
  file : string;
  config : MonitorConfig.t;
  filter : list (string * string)
}.
End Monitor.

(** [MonitorSchema = Omit<MonitorConfig, 'locations'> &
      { content; locations: string[]; filter }] *)
Module MonitorSchema.
Record t : Type := mk {
  name : string;
  others : list (string * string);
  content : string;
  locations : list string;
  filter : list (string * string)
}.
End MonitorSchema.

(** What [monitor.ts] imports: the table [LocationsMap] (dsl/locations),
    the constant [CACHE_PATH] (helpers), [join] (path), and the two calls
    that can fail, [mkdir] (fs/promises) and [Bundler.build]. *)
Module PushEnv.
Record t : Type := mk {
  LocationsMap : string -> option string;
  CACHE_PATH : string;
  join : string -> string -> string;
  mkdir : string -> Completion unit;
  build : string -> string -> Completion string
}.
End PushEnv.

(** The calls [buildMonitorSchema] makes to the file system and to the
    bundler. *)
Inductive PushAction : Type :=
| Mkdir (path : string)
| Build (file outPath : string).

(** [Boolean(v)] for a value that is a string or [undefined]. *)
Definition Boolean (v : option string) : bool :=
  match v with
  | Some s => negb (String.eqb s "")
  | None => false
  end.

(** The strings of an array from which [undefined] has been filtered
    out. *)
Definition strings (vs : list (option string)) : list string :=
  flat_map (fun v => match v with Some s => [s] | None => [] end) vs.

(** [locations.map(loc => LocationsMap[loc]).filter(Boolean)] *)
Definition translateLocation (E : PushEnv.t) (locations : list string) : list string :=
  strings (filter Boolean (map (PushEnv.LocationsMap E) locations)).

(** [join(bundlePath, config.name + '.zip')] *)
Definition outPath (E : PushEnv.t) (bundlePath : string) (monitor : Monitor.t) : string :=
  PushEnv.join E bundlePath
    (MonitorConfig.name (Monitor.config monitor) ++ ".zip")%string.

(** [{ ...config, content, locations: translateLocation(config.locations),
      filter: filter }] *)
Definition schemaOf (E : PushEnv.t) (monitor : Monitor.t) (content : string)
  : MonitorSchema.t :=
  MonitorSchema.mk
    (MonitorConfig.name (Monitor.config monitor))
    (MonitorConfig.others (Monitor.config monitor))
    content
    (translateLocation E (MonitorConfig.locations (Monitor.config monitor)))
    (Monitor.filter monitor).

(** The [for (const monitor of monitors)] loop of [buildMonitorSchema]. *)
Fixpoint buildMonitorSchema_loop (E : PushEnv.t) (bundlePath : string)
    (monitors : list Monitor.t) (schemas : list MonitorSchema.t)
  : Completion (list MonitorSchema.t) * list PushAction :=
  match monitors with
  | [] => (Normal schemas, [])
  | monitor :: rest =>
      let out := outPath E bundlePath monitor in
      match PushEnv.build E (Monitor.file monitor) out with
      | Throw e => (Throw e, [Build (Monitor.file monitor) out])
      | Normal content =>
          let (c, t) := buildMonitorSchema_loop E bundlePath rest
                          (schemas ++ [schemaOf E monitor content]) in
          (c, Build (Monitor.file monitor) out :: t)
      end
  end.

Definition bundlePath (E : PushEnv.t) : string :=
  PushEnv.join E (PushEnv.CACHE_PATH E) "bundles".

Definition buildMonitorSchema (E : PushEnv.t) (monitors : list Monitor.t)
  : Completion (list MonitorSchema.t) * list PushAction :=
  match monitors with
  | [] => (Throw (mkError "No Monitors found"), [])
  | _ :: _ =>
      match PushEnv.mkdir E (bundlePath E) with
      | Throw e => (Throw e, [Mkdir (bundlePath E)])
      | Normal _ =>
          let (c, t) := buildMonitorSchema_loop E (bundlePath E) monitors [] in
          (c, Mkdir (bundlePath E) :: t)
      end
  end.

(** The [Build] call for a monitor. *)
Definition buildOf (E : PushEnv.t) (monitor : Monitor.t) : PushAction :=
  Build (Monitor.file monitor) (outPath E (bundlePath E) monitor).

(** A schema is the schema of a monitor: built from it and from the
    content the bundler returned for it. *)
Definition isSchemaOf (E : PushEnv.t) (monitor : Monitor.t) (schema : MonitorSchema.t)
  : Prop :=
  exists content,
    PushEnv.build E (Monitor.file monitor) (outPath E (bundlePath E) monitor)
      = Normal content /\
    schema = schemaOf E monitor content.

Module SamplePush.
Definition env : PushEnv.t :=
  PushEnv.mk
    (fun loc =>
       if String.eqb loc "japan" then Some "asia-northeast1-a"
       else if String.eqb loc "germany" then Some "europe-west3-a"
       else None)
    ".synthetics"
    (fun a b => (a ++ "/" ++ b)%string)
    (fun _ => Normal tt)
    (fun file _ => if String.eqb file "broken.journey.ts" then Throw (mkError "syntax")
                   else Normal "UEsDBA==").

Definition m1 : Monitor.t :=
  Monitor.mk "a.journey.ts" (MonitorConfig.mk "a" ["japan"; "mars"; "germany"] []) [].
Definition m2 : Monitor.t :=
  Monitor.mk "broken.journey.ts" (MonitorConfig.mk "b" ["germany"] []) [].
Definition m3 : Monitor.t :=
  Monitor.mk "c.journey.ts" (MonitorConfig.mk "c" [] [("schedule", "10")]) [].
End SamplePush.

(** ** Laws of the monad *)

Section Laws.
Context {S : Type}.

Lemma surjective_result {A} (r : Completion A * S * Trace) :
  r = (completion r, state_of r, trace_of r).
Proof. destruct r as [[c s] t]. reflexivity. Qed.

Lemma runParallel_eq (cbs : list VoidCallback) (s : S) :
  runParallel cbs s =
    (match firstRejection cbs with Some e => Throw e | None => Normal tt end,
     s, map CallHook cbs).
Proof.
  unfold runParallel, bind, tell, throw, ret.
  destruct (firstRejection cbs); rewrite app_nil_r; reflexivity.
Qed.
End Laws.

Lemma completion_mk {S A} (c : Completion A) (s : S) (t : Trace) :
  completion (c, s, t) = c.
Proof. reflexivity. Qed.

Lemma state_of_mk {S A} (c : Completion A) (s : S) (t : Trace) :
  state_of (c, s, t) = s.
Proof. reflexivity. Qed.

Lemma trace_of_mk {S A} (c : Completion A) (s : S) (t : Trace) :
  trace_of (c, s, t) = t.
Proof. reflexivity. Qed.

Create Rewrite HintDb result.
#[local] Hint Rewrite @completion_mk @state_of_mk @trace_of_mk : result.

Lemma events_app (t1 t2 : Trace) : events (t1 ++ t2) = events t1 ++ events t2.
Proof. apply flat_map_app. Qed.

Lemma executed_app (t1 t2 : Trace) : executed (t1 ++ t2) = executed t1 ++ executed t2.
Proof. apply flat_map_app. Qed.

Lemma hookCalls_app (t1 t2 : Trace) : hookCalls (t1 ++ t2) = hookCalls t1 ++ hookCalls t2.
Proof. apply flat_map_app. Qed.

Lemma disposals_app d (t1 t2 : Trace) :
  disposals d (t1 ++ t2) = disposals d t1 + disposals d t2.
Proof. unfold disposals. rewrite filter_app, length_app. reflexivity. Qed.

Lemma events_hooks (cbs : list VoidCallback) : events (map CallHook cbs) = [].
Proof. induction cbs; simpl; auto. Qed.

Lemma executed_hooks (cbs : list VoidCallback) : executed (map CallHook cbs) = [].
Proof. induction cbs; simpl; auto. Qed.

Lemma disposals_hooks d (cbs : list VoidCallback) : disposals d (map CallHook cbs) = 0.
Proof. induction cbs; simpl; auto. Qed.

Lemma hookCalls_hooks (cbs : list VoidCallback) : hookCalls (map CallHook cbs) = cbs.
Proof. induction cbs; simpl; congruence. Qed.

(** ** The step executor *)

(** Case analysis on every answer [runStep] asks of its collaborators. *)
Ltac step_cases step ctx options :=
  unfold runStep, with_local, runStep_body, try_finally, try_catch, bind,
    awaitCallback, call, when, modify, get, tell, ret, completion, trace_of, state_of;
  destruct (PluginManager.onStep (JourneyContext.pluginManager ctx) step);
  simpl;
  try destruct (Step.callback step); simpl;
  try destruct (RunOptions.metrics options); simpl;
  try destruct (PluginManager.getMetrics (JourneyContext.pluginManager ctx) step);
  simpl;
  try destruct (data_url (deliver (Step.requests step) (mkCapture None true)));
  simpl;
  try destruct (RunOptions.screenshots options); simpl;
  try destruct (Page.waitForLoadState (Driver.page (JourneyContext.driver ctx)) step);
  simpl;
  try destruct (Page.screenshot (Driver.page (JourneyContext.driver ctx)) step);
  simpl.

(** [runStep] reads and writes nothing of the instance: its completion and
    its trace are those it has on any other state. *)
Lemma runStep_eq {S} step ctx options (this : S) :
  runStep step ctx options this =
    (completion (runStep step ctx options tt), this,
     trace_of (runStep step ctx options tt)).
Proof.
  unfold runStep, with_local, completion, trace_of.
  destruct (runStep_body step ctx options (StepResult.init succeeded))
    as [[[u|e] l] t]; reflexivity.
Qed.

Lemma runStep_state {S} step ctx options (this : S) :
  state_of (runStep step ctx options this) = this.
Proof. rewrite runStep_eq. reflexivity. Qed.

(** A result returned by [runStep] is [succeeded] without an error, or
    [failed] with one. *)
Lemma runStep_status {S} step ctx options (this : S) d :
  completion (runStep step ctx options this) = Normal d ->
  (StepResult.status d = succeeded /\ StepResult.error d = None) \/
  (StepResult.status d = failed /\ exists e, StepResult.error d = Some e).
Proof.
  step_cases step ctx options; intros H; inversion H; subst; simpl; eauto.
Qed.

Lemma runStep_executed {S} step ctx options (this : S) :
  executed (trace_of (runStep step ctx options this)) = [step].
Proof. step_cases step ctx options; reflexivity. Qed.

Lemma runStep_events {S} step ctx options (this : S) :
  events (trace_of (runStep step ctx options this)) = [].
Proof. step_cases step ctx options; reflexivity. Qed.

(** ** The step loop *)


Lemma erroredBefore_app results more i :
  i <= List.length results ->
  (erroredBefore (results ++ more) i <-> erroredBefore results i).
Proof.
  intros Hi. unfold erroredBefore. split; intros (k & d & Hk & Hn & Hs);
    exists k, d; repeat split; auto.
  - rewrite nth_error_app1 in Hn by lia. exact Hn.
  - rewrite nth_error_app1 by lia. exact Hn.
Qed.

Section StepLoop.
Variable journey : Journey.t.
Variable ctx : JourneyContext.t.
Variable options : RunOptions.t.

Local Abbreviation loop := (runSteps_loop journey ctx options).

Lemma loop_skip steps results this :
  loop steps true results this =
    (Normal (results ++ skippedResults steps), this,
     map Emit (flat_map (stepEvents journey)
                 (combine steps (skippedResults steps)))).
Proof.
  revert results.
  induction steps as [|step rest IH]; intros results; simpl.
  - rewrite app_nil_r. reflexivity.
  - unfold bind at 1. simpl. unfold bind at 1. simpl.
    unfold bind at 1. simpl. unfold bind at 1. simpl.
    rewrite andb_false_r. simpl.
    rewrite IH. rewrite <- app_assoc. reflexivity.
Qed.

Lemma loop_run step rest results this d :
  completion (runStep step ctx options this) = Normal d ->
  loop (step :: rest) false results this =
    (completion (loop rest (has_error d) (results ++ [d]) this),
     state_of (loop rest (has_error d) (results ++ [d]) this),
     Emit (Ev_step_start journey step)
       :: trace_of (runStep step ctx options this)
       ++ Emit (Ev_step_end journey step d)
       :: (if RunOptions.pauseOnError options && has_error d then [AwaitStdin] else [])
       ++ trace_of (loop rest (has_error d) (results ++ [d]) this)).
Proof.
  intros H. simpl.
  pose proof (runStep_state step ctx options this) as Hs.
  destruct (runStep step ctx options this) as [[c0 s0] t0] eqn:E.
  unfold completion in H. unfold state_of in Hs. simpl in H, Hs. subst c0 s0.
  unfold bind at 1. simpl. unfold bind at 1. simpl. rewrite E.
  unfold bind at 1. simpl. unfold bind at 1.
  destruct (RunOptions.pauseOnError options && has_error d); simpl;
    destruct (runSteps_loop journey ctx options rest (has_error d) (results ++ [d]) this)
      as [[c s] t]; simpl; rewrite <- ?app_assoc; reflexivity.
Qed.

Lemma loop_throw step rest results this e :
  completion (runStep step ctx options this) = Throw e ->
  loop (step :: rest) false results this =
    (Throw e, this,
     Emit (Ev_step_start journey step) :: trace_of (runStep step ctx options this)).
Proof.
  intros H. simpl.
  pose proof (runStep_state step ctx options this) as Hs.
  destruct (runStep step ctx options this) as [[c0 s0] t0] eqn:E.
  unfold completion in H. unfold state_of in Hs. simpl in H, Hs. subst c0 s0.
  unfold bind at 1. simpl. unfold bind at 1. simpl. rewrite E. reflexivity.
Qed.

(** The loop leaves the instance as it found it. *)
Lemma loop_state steps skipStep results this :
  state_of (loop steps skipStep results this) = this.
Proof.
  revert skipStep results.
  induction steps as [|step rest IH]; intros skipStep results.
  - reflexivity.
  - destruct skipStep.
    + rewrite loop_skip. reflexivity.
    + destruct (completion (runStep step ctx options this)) as [d|e] eqn:E.
      * erewrite loop_run by exact E. simpl. apply IH.
      * erewrite loop_throw by exact E. reflexivity.
Qed.
End StepLoop.

Lemma events_emit (es : list Event) : events (map Emit es) = es.
Proof. induction es; simpl; congruence. Qed.

Lemma executed_emit (es : list Event) : executed (map Emit es) = [].
Proof. induction es; simpl; auto. Qed.

Lemma pause_events (b : bool) : events (if b then [AwaitStdin] else []) = [].
Proof. destruct b; reflexivity. Qed.

Lemma pause_executed (b : bool) : executed (if b then [AwaitStdin] else []) = [].
Proof. destruct b; reflexivity. Qed.

Lemma events_cons_emit e (t : Trace) : events (Emit e :: t) = e :: events t.
Proof. reflexivity. Qed.

Lemma executed_cons_emit e (t : Trace) : executed (Emit e :: t) = executed t.
Proof. reflexivity. Qed.

Create Rewrite HintDb events.
Create Rewrite HintDb executed.
#[local] Hint Rewrite events_app events_cons_emit events_emit events_hooks pause_events
  @runStep_events : events.
#[local] Hint Rewrite executed_app executed_cons_emit executed_emit executed_hooks
  pause_executed @runStep_executed : executed.

Section StepLoopProperties.
Variable journey : Journey.t.
Variable ctx : JourneyContext.t.
Variable options : RunOptions.t.

Local Abbreviation loop := (runSteps_loop journey ctx options).

(** When the loop returns, it has pushed one result per step and emitted,
    for each step in order, its [step:start] and then its [step:end]. *)
Lemma loop_returns steps skipStep results this rs :
  completion (loop steps skipStep results this) = Normal rs ->
  exists news,
    rs = results ++ news /\
    List.length news = List.length steps /\
    events (trace_of (loop steps skipStep results this)) =
      flat_map (stepEvents journey) (combine steps news).
Proof.
  revert skipStep results rs.
  induction steps as [|step rest IH]; intros skipStep results rs H.
  - exists []. simpl in H. inversion H. rewrite app_nil_r. auto.
  - destruct skipStep.
    + rewrite loop_skip in *. unfold completion in H; simpl in H. inversion H.
      exists (skippedResults (step :: rest)). unfold trace_of; cbn [snd].
      rewrite events_emit. unfold skippedResults. rewrite length_map. auto.
    + destruct (completion (runStep step ctx options this)) as [d|e] eqn:E.
      * erewrite loop_run in * by exact E.
        unfold completion at 1 in H; simpl in H.
        destruct (IH _ _ _ H) as (news & Hrs & Hlen & Hev).
        exists (d :: news). rewrite <- app_assoc in Hrs. simpl in Hrs.
        repeat split; auto.
        -- simpl. congruence.
        -- unfold trace_of at 1; cbn [snd].
           autorewrite with events. rewrite Hev. reflexivity.
      * erewrite loop_throw in H by exact E. discriminate H.
Qed.


Lemma loopInv_init : loopInv false [].
Proof.
  split.
  - intros i d H. destruct i; discriminate H.
  - split; [discriminate|]. intros (k & d & Hk & _). simpl in Hk. lia.
Qed.

Lemma erroredBefore_snoc results d :
  erroredBefore (results ++ [d]) (List.length (results ++ [d])) <->
  erroredBefore results (List.length results) \/ has_error d = true.
Proof.
  rewrite length_app. simpl. split.
  - intros (k & d' & Hk & Hn & Hs).
    destruct (Nat.eq_dec k (List.length results)) as [->|Hne].
    + rewrite nth_error_app2, Nat.sub_diag in Hn by lia. simpl in Hn.
      inversion Hn. subst. auto.
    + left. exists k, d'. rewrite nth_error_app1 in Hn by lia.
      repeat split; auto. lia.
  - intros [(k & d' & Hk & Hn & Hs)|Hs].
    + exists k, d'. rewrite nth_error_app1 by lia. repeat split; auto. lia.
    + exists (List.length results), d.
      rewrite nth_error_app2, Nat.sub_diag by lia. repeat split; auto. lia.
Qed.

Lemma loopInv_snoc skipStep results d :
  loopInv skipStep results ->
  (StepResult.status d = skipped <-> skipStep = true) ->
  loopInv (if skipStep then true else has_error d) (results ++ [d]).
Proof.
  intros [Hlaw Hflag] Hd. split.
  - intros i d' Hn.
    destruct (Nat.lt_ge_cases i (List.length results)) as [Hi|Hi].
    + rewrite nth_error_app1 in Hn by lia.
      rewrite erroredBefore_app by lia. apply Hlaw; exact Hn.
    + assert (i = List.length results) as ->.
      { assert (Hlt : i < List.length (results ++ [d]))
          by (apply nth_error_Some; congruence).
        rewrite length_app in Hlt. simpl in Hlt. lia. }
      rewrite nth_error_app2, Nat.sub_diag in Hn by lia. simpl in Hn.
      inversion Hn; subst d'.
      rewrite erroredBefore_app by lia. rewrite Hd. exact Hflag.
  - rewrite erroredBefore_snoc, <- Hflag.
    destruct skipStep; [tauto|]. intuition discriminate.
Qed.

(** A result of [runStep] is never [skipped]; it holds a truthy error only
    if it is [failed], and none if it is [succeeded]. *)
Lemma runStep_has_error {S} step (this : S) d :
  completion (runStep step ctx options this) = Normal d ->
  StepResult.status d <> skipped /\
  (has_error d = true -> StepResult.status d = failed) /\
  (StepResult.status d = succeeded -> has_error d = false).
Proof.
  intros H. unfold has_error.
  destruct (runStep_status _ _ _ _ H) as [[-> ->]|[-> [e ->]]];
    repeat split; try discriminate; auto.
Qed.

(** Every result of a loop that returned has a property that the results
    it started from, the bare skipped result and the results of [runStep]
    have. *)
Lemma loop_Forall (P : StepResult.t -> Prop) steps skipStep results this rs :
  P (StepResult.init skipped) ->
  (forall step d, completion (runStep step ctx options this) = Normal d -> P d) ->
  Forall P results ->
  completion (loop steps skipStep results this) = Normal rs ->
  Forall P rs.
Proof.
  intros Hskip Hrun. revert skipStep results.
  induction steps as [|step rest IH]; intros skipStep results Hres H.
  - simpl in H. inversion H. subst. exact Hres.
  - destruct skipStep.
    + rewrite loop_skip in H. autorewrite with result in H.
      injection H as <-.
      apply Forall_app. split; [exact Hres|].
      clear IH. constructor; [exact Hskip|]. unfold skippedResults.
      induction rest; simpl; constructor; auto.
    + destruct (completion (runStep step ctx options this)) as [d|e] eqn:E.
      * erewrite loop_run in H by exact E. autorewrite with result in H.
        apply (IH (has_error d) (results ++ [d])); [|exact H].
        apply Forall_app. split; [exact Hres|]. constructor; [|constructor].
        apply (Hrun step). exact E.
      * erewrite loop_throw in H by exact E. discriminate H.
Qed.

Lemma loop_skipRule steps skipStep results this rs :
  loopInv skipStep results ->
  completion (loop steps skipStep results this) = Normal rs ->
  skipRule rs.
Proof.
  revert skipStep results.
  induction steps as [|step rest IH]; intros skipStep results Hinv H.
  - simpl in H. inversion H. subst. apply Hinv.
  - destruct skipStep.
    + (* one iteration under the flag, then the rest *)
      apply (IH true (results ++ [StepResult.init skipped])).
      * apply (loopInv_snoc (StepResult.init skipped) Hinv). simpl. tauto.
      * rewrite loop_skip in *. rewrite <- app_assoc. exact H.
    + destruct (completion (runStep step ctx options this)) as [d|e] eqn:E.
      * erewrite loop_run in H by exact E.
        destruct (runStep_has_error _ _ E) as [Hns _].
        apply (IH (has_error d) (results ++ [d])); [|exact H].
        apply (loopInv_snoc d Hinv).
        split; [contradiction|discriminate].
      * erewrite loop_throw in H by exact E. discriminate H.
Qed.

(** Step [s] is the first to fail, with a truthy error: the steps [pre]
    before it are run and succeed, [s] is run, the steps [post] after it are
    skipped without being handed to the step executor. *)
Lemma loop_first_failure pre s post results this d :
  (forall s', In s' pre -> exists d',
      completion (runStep s' ctx options this) = Normal d' /\
      StepResult.status d' = succeeded) ->
  completion (runStep s ctx options this) = Normal d ->
  has_error d = true ->
  exists ds,
    completion (loop (pre ++ s :: post) false results this)
      = Normal (results ++ ds ++ d :: skippedResults post) /\
    map StepResult.status ds = repeat succeeded (List.length pre) /\
    executed (trace_of (loop (pre ++ s :: post) false results this)) = pre ++ [s].
Proof.
  revert results.
  induction pre as [|p pre IH]; intros results Hpre Hs Herr.
  - exists []. simpl app.
    erewrite loop_run by exact Hs. rewrite Herr, loop_skip.
    autorewrite with result.
    rewrite <- app_assoc. repeat split.
    autorewrite with executed. reflexivity.
  - destruct (Hpre p (or_introl eq_refl)) as (d' & Hp & Hok).
    destruct (runStep_has_error _ _ Hp) as (_ & _ & Hnone).
    specialize (Hnone Hok).
    destruct (IH (results ++ [d'])) as (ds & Hc & Hst & Hex); auto.
    { intros s' Hin. apply Hpre. right. exact Hin. }
    exists (d' :: ds). simpl app.
    erewrite loop_run by exact Hp. rewrite Hnone.
    autorewrite with result.
    rewrite Hc, <- app_assoc. repeat split.
    + simpl. congruence.
    + autorewrite with executed. rewrite Hex. reflexivity.
Qed.

(** When the failed results are exactly those that hold a truthy error,
    [skipRule] says that a result is [skipped] exactly when an earlier one
    is [failed]. *)
Lemma skipRule_skipLaw results :
  skipRule results ->
  Forall (fun d => has_error d = true <-> StepResult.status d = failed) results ->
  skipLaw results.
Proof.
  intros Hrule Hall i d Hn. rewrite (Hrule i d Hn).
  rewrite Forall_forall in Hall.
  split; intros (k & d' & Hk & Hnk & Hd'); exists k, d'; repeat split; auto;
    apply (Hall d' (nth_error_In _ _ Hnk)); exact Hd'.
Qed.
End StepLoopProperties.

(** ** The journey executor *)

Lemma runSteps_eq journey ctx options this :
  runSteps journey ctx options this =
    (completion (runSteps journey ctx options this), this,
     trace_of (runSteps journey ctx options this)).
Proof.
  rewrite (surjective_result (runSteps journey ctx options this)) at 1.
  unfold runSteps at 2. rewrite loop_state. reflexivity.
Qed.

Lemma registerJourney_eq journey ctx this :
  registerJourney journey ctx this =
    (Journey.callback journey, set_currentJourney (Some journey) this,
     [Emit (Ev_journey_start journey (JourneyContext.params ctx));
      CallJourney journey]).
Proof. reflexivity. Qed.


Lemma endJourney_eq journey ctx result this :
  endJourney journey ctx result this =
    match PluginManager.output (JourneyContext.pluginManager ctx) with
    | Normal out =>
        (Normal tt, this, [Output journey; Emit (journeyEnd journey ctx result out)])
    | Throw e => (Throw e, this, [Output journey])
    end.
Proof.
  unfold endJourney, bind, call, emit, tell.
  destruct (PluginManager.output (JourneyContext.pluginManager ctx)); reflexivity.
Qed.

Section JourneyStages.
Variable journey : Journey.t.
Variable ctx : JourneyContext.t.
Variable options : RunOptions.t.
Variable this : Runner.t.

Local Abbreviation this1 := (set_currentJourney (Some journey) this).


(** The [try]/[catch] of [runJourney], stage by stage: the first stage that
    throws ends the [try] block and its error is the journey's error. *)
Lemma runJourney_try_catch_eq :
  runJourney_try_catch journey ctx options this =
    match Journey.callback journey with
    | Throw e =>
        (Normal (JourneyResult.mk failed (Some e)), this1, registrationTrace journey ctx)
    | Normal _ =>
        match firstRejection (Hooks.before (Journey.hooks journey)) with
        | Some e =>
            (Normal (JourneyResult.mk failed (Some e)), this1,
             registrationTrace journey ctx ++ beforeTrace journey)
        | None =>
            match completion (runSteps journey ctx options this1) with
            | Throw e =>
                (Normal (JourneyResult.mk failed (Some e)), this1,
                 registrationTrace journey ctx ++ beforeTrace journey
                   ++ trace_of (runSteps journey ctx options this1))
            | Normal stepResults =>
                (Normal
                   match firstRejection (Hooks.after (Journey.hooks journey)) with
                   | Some e => JourneyResult.mk failed (Some e)
                   | None => fold_left markFailed stepResults
                               (JourneyResult.mk succeeded None)
                   end,
                 this1,
                 registrationTrace journey ctx ++ beforeTrace journey
                   ++ trace_of (runSteps journey ctx options this1) ++ afterTrace journey)
            end
        end
    end.
Proof.
  unfold runJourney_try_catch, try_catch, runJourney_try.
  unfold bind at 1. rewrite registerJourney_eq.
  destruct (Journey.callback journey) as [[]|e]; [|reflexivity].
  unfold bind at 1. unfold runBeforeHook. rewrite runParallel_eq.
  fold (beforeTrace journey).
  destruct (firstRejection (Hooks.before (Journey.hooks journey))) as [e|].
  { simpl. rewrite app_nil_r. reflexivity. }
  unfold bind at 1. rewrite runSteps_eq.
  destruct (completion (runSteps journey ctx options this1)) as [stepResults|e].
  2:{ simpl. rewrite app_nil_r. reflexivity. }
  unfold bind at 1. unfold runAfterHook. rewrite runParallel_eq.
  fold (afterTrace journey).
  destruct (firstRejection (Hooks.after (Journey.hooks journey))) as [e|];
    simpl; rewrite ?app_nil_r; reflexivity.
Qed.

Lemma runJourney_try_catch_normal :
  exists result,
    completion (runJourney_try_catch journey ctx options this) = Normal result.
Proof.
  rewrite runJourney_try_catch_eq.
  destruct (Journey.callback journey); [|eexists; reflexivity].
  destruct (firstRejection (Hooks.before (Journey.hooks journey)));
    [eexists; reflexivity|].
  destruct (completion (runSteps journey ctx options this1));
    eexists; reflexivity.
Qed.

Lemma runJourney_try_catch_state :
  state_of (runJourney_try_catch journey ctx options this) = this1.
Proof.
  rewrite runJourney_try_catch_eq.
  destruct (Journey.callback journey); auto.
  destruct (firstRejection (Hooks.before (Journey.hooks journey))); auto.
  destruct (completion (runSteps journey ctx options this1)); auto.
Qed.
End JourneyStages.

Lemma createContext_eq {S} G options (s : S) :
  createContext G options s =
    match Gatherer.setupDriver G options with
    | Throw e => (Throw e, s, [SetupDriver])
    | Normal driver =>
        match Gatherer.beginRecording G driver options with
        | Throw e => (Throw e, s, [SetupDriver; BeginRecording (Driver.id driver)])
        | Normal pluginManager =>
            (Normal (JourneyContext.mk (RunOptions.params options) driver pluginManager),
             s, [SetupDriver; BeginRecording (Driver.id driver)])
        end
    end.
Proof.
  unfold createContext, bind, call, ret.
  destruct (Gatherer.setupDriver G options) as [driver|e]; [|reflexivity].
  destruct (Gatherer.beginRecording G driver options); reflexivity.
Qed.


(** [runJourney] once the context exists: the [try]/[catch] gives the
    result, the [finally] block runs, and the result is returned unless the
    [finally] block threw. *)
Lemma runJourney_eq G journey options this driver pluginManager result :
  Gatherer.setupDriver G options = Normal driver ->
  Gatherer.beginRecording G driver options = Normal pluginManager ->
  let ctx := JourneyContext.mk (RunOptions.params options) driver pluginManager in
  completion (runJourney_try_catch journey ctx options this) = Normal result ->
  runJourney G journey options this =
    (match ending G ctx with Normal _ => Normal result | Throw e => Throw e end,
     set_currentJourney (Some journey) this,
     [SetupDriver; BeginRecording (Driver.id driver)]
       ++ trace_of (runJourney_try_catch journey ctx options this)
       ++ endingTrace G journey ctx result).
Proof.
  intros Hd Hp ctx Hr.
  pose proof (runJourney_try_catch_state journey ctx options this) as Hs.
  unfold runJourney, ending, endingTrace.
  unfold bind at 1. rewrite createContext_eq, Hd, Hp. fold ctx.
  unfold bind at 1.
  destruct (runJourney_try_catch journey ctx options this) as [[c s] t].
  autorewrite with result in Hr, Hs. autorewrite with result. subst c s.
  unfold bind at 1. rewrite endJourney_eq. cbn [JourneyContext.pluginManager ctx].
  destruct (PluginManager.output pluginManager) as [out|e]; [|reflexivity].
  unfold bind, call, ret. cbn [JourneyContext.driver ctx].
  destruct (Gatherer.dispose G driver) as [[]|e]; simpl; reflexivity.
Qed.

(** The completion of [runStep] is the same on every state. *)
Lemma runStep_completion {S S'} step ctx options (a : S) (b : S') :
  completion (runStep step ctx options a) = completion (runStep step ctx options b).
Proof. rewrite (runStep_eq _ _ _ a), (runStep_eq _ _ _ b). reflexivity. Qed.

Lemma skippedResults_status steps :
  map StepResult.status (skippedResults steps) = repeat skipped (List.length steps).
Proof. induction steps; simpl; congruence. Qed.

Lemma markFailed_succeeded ds result :
  map StepResult.status ds = repeat succeeded (List.length ds) ->
  fold_left markFailed ds result = result.
Proof.
  revert result. induction ds as [|d ds IH]; intros result H.
  - reflexivity.
  - cbn [map List.length repeat] in H. inversion H as [[Hd Hds]].
    cbn [fold_left].
    replace (markFailed result d) with result
      by (unfold markFailed; rewrite Hd; reflexivity).
    apply IH. rewrite Hd in Hds. exact Hds.
Qed.

Lemma markFailed_skipped steps result :
  fold_left markFailed (skippedResults steps) result = result.
Proof. induction steps; simpl; auto. Qed.


(** ** C1: first failure, skipped steps, journey status *)

(** C1, as stated, fails, twice over.  In journey [Jy] step [A] succeeds,
    step [B] is the first to fail, with error "x", and the [after] hook then
    throws "y"; the JourneyResult is [failed] but carries "y", not the
    failing step's error.  In journey [Js] the first step rejects with
    [undefined]: its result is [failed], yet the next step is handed to the
    step executor and succeeds, so that no result is [skipped] although an
    earlier step failed. *)
Lemma first_failure_claim_fails :
  (Journey.steps Sample2.Jy = [Sample.A; Sample.B; Sample.C] /\
   (exists d, completion (runStep Sample.A Sample.context Sample.options Sample.idle)
                = Normal d /\ StepResult.status d = succeeded) /\
   (exists d, completion (runStep Sample.B Sample.context Sample.options Sample.idle)
                = Normal d /\ StepResult.status d = failed
              /\ StepResult.error d = Some Sample.x) /\
   completion (runJourney Sample.gatherer Sample2.Jy Sample.options Sample.idle)
     = Normal (JourneyResult.mk failed (Some Sample.y)) /\
   Some Sample.y <> Some Sample.x) /\
  (Journey.steps Faulty.Js = [Faulty.silent; Sample.C] /\
   completion (runSteps Faulty.Js Sample.context Sample.options Sample.idle)
     = Normal [StepResult.mk failed (Some "about:blank") None (Some JsUndefined) None;
               StepResult.mk succeeded (Some "about:blank") None None None] /\
   executed (trace_of (runSteps Faulty.Js Sample.context Sample.options Sample.idle))
     = [Faulty.silent; Sample.C] /\
   ~ skipLaw [StepResult.mk failed (Some "about:blank") None (Some JsUndefined) None;
              StepResult.mk succeeded (Some "about:blank") None None None]).
Proof.
  split.
  - split; [reflexivity|]. split; [eexists; split; reflexivity|].
    split; [eexists; repeat split; reflexivity|].
    split; [reflexivity|discriminate].
  - split; [reflexivity|]. split; [reflexivity|]. split; [reflexivity|].
    intros Hlaw.
    destruct (Hlaw 1 _ eq_refl) as [_ Hskip].
    assert (Hbefore : failedBefore
              [StepResult.mk failed (Some "about:blank") None (Some JsUndefined) None;
               StepResult.mk succeeded (Some "about:blank") None None None] 1).
    { exists 0. eexists. split; [lia|]. split; reflexivity. }
    specialize (Hskip Hbefore). discriminate Hskip.
Qed.

(** C1 (amended).  In every list of results the step loop returns in which
    each [failed] result holds a truthy error, a result is [skipped] if and
    only if an earlier result is [failed].  And when registration and the
    before-hooks completed and step [s] is the first step that fails (the
    steps [pre] before it are run and succeed), its error being truthy, the
    step executor is handed exactly the steps [pre] and [s], never a step of
    [post]; the results are [succeeded] for [pre], [failed] for [s] and
    [skipped] for [post]; a JourneyResult, which is returned whenever the
    ending of the journey does not throw, has status [failed], and carries
    the failing step's error when the after-hooks do not throw. *)
Theorem first_failure_skips_the_rest :
  (forall journey ctx options (this : Runner.t) results,
      completion (runSteps journey ctx options this) = Normal results ->
      Forall (fun d => StepResult.status d = failed -> has_error d = true) results ->
      skipLaw results) /\
  (forall G journey options this driver pluginManager pre s post d,
      Gatherer.setupDriver G options = Normal driver ->
      Gatherer.beginRecording G driver options = Normal pluginManager ->
      let ctx := JourneyContext.mk (RunOptions.params options) driver pluginManager in
      Journey.callback journey = Normal tt ->
      firstRejection (Hooks.before (Journey.hooks journey)) = None ->
      Journey.steps journey = pre ++ s :: post ->
      (forall s', In s' pre -> exists d',
          completion (runStep s' ctx options this) = Normal d' /\
          StepResult.status d' = succeeded) ->
      completion (runStep s ctx options this) = Normal d ->
      StepResult.status d = failed ->
      has_error d = true ->
      (forall this', exists results,
          completion (runSteps journey ctx options this') = Normal results /\
          map StepResult.status results =
            repeat succeeded (List.length pre) ++ failed :: repeat skipped (List.length post) /\
          nth_error results (List.length pre) = Some d) /\
      executed (trace_of (runJourney G journey options this)) = pre ++ [s] /\
      (exists e, StepResult.error d = Some e /\
         forall r, completion (runJourney G journey options this) = Normal r ->
           JourneyResult.status r = failed /\
           (firstRejection (Hooks.after (Journey.hooks journey)) = None ->
            JourneyResult.error r = Some e)) /\
      (ending G ctx = Normal tt ->
       exists r, completion (runJourney G journey options this) = Normal r)).
Proof.
  split.
  { intros journey ctx options this results Hres Hall.
    unfold runSteps in Hres.
    apply skipRule_skipLaw.
    - eapply loop_skipRule; [apply loopInv_init|exact Hres].
    - assert (Hcode : Forall (fun d => has_error d = true ->
                                       StepResult.status d = failed) results).
      { eapply loop_Forall; [| |constructor|exact Hres].
        - discriminate.
        - intros step d Hd. eapply runStep_has_error. exact Hd. }
      rewrite Forall_forall in *. intros d Hin. split; auto. }
  intros G journey options this driver pluginManager pre s post d.
  intros Hd Hp ctx Hcb Hbefore Hsteps Hpre Hs Hfailed Herr.
  assert (Hloop : forall this' : Runner.t, exists ds,
            completion (runSteps journey ctx options this')
              = Normal (ds ++ d :: skippedResults post) /\
            map StepResult.status ds = repeat succeeded (List.length pre) /\
            executed (trace_of (runSteps journey ctx options this')) = pre ++ [s]).
  { intros this'. unfold runSteps. rewrite Hsteps.
    destruct (@loop_first_failure journey ctx options pre s post [] this' d)
      as (ds & H1 & H2 & H3); eauto.
    - intros s' Hin. destruct (Hpre s' Hin) as (d' & Hd' & Hok).
      exists d'. split; [|exact Hok].
      rewrite (runStep_completion _ _ _ this' this). exact Hd'.
    - rewrite (runStep_completion _ _ _ this' this). exact Hs. }
  assert (Hlen : forall ds, map StepResult.status ds = repeat succeeded (List.length pre) ->
            List.length ds = List.length pre).
  { intros ds H. rewrite <- (length_map StepResult.status ds), H. apply repeat_length. }
  assert (He : exists e, StepResult.error d = Some e).
  { unfold has_error in Herr. destruct (StepResult.error d) as [e|]; [eauto|discriminate]. }
  destruct He as [e He].
  destruct (runJourney_try_catch_normal journey ctx options this) as [result Hresult].
  pose proof (@runJourney_eq G journey options this _ _ _ Hd Hp Hresult) as Hrun.
  fold ctx in Hrun.
  rewrite runJourney_try_catch_eq, Hcb, Hbefore in Hresult, Hrun.
  destruct (Hloop (set_currentJourney (Some journey) this)) as (ds & Hc & Hst & Hex).
  rewrite Hc in Hresult, Hrun. autorewrite with result in Hresult, Hrun.
  split; [|split; [|split]].
  - intros this'. destruct (Hloop this') as (ds' & Hc' & Hst' & _).
    exists (ds' ++ d :: skippedResults post). split; [exact Hc'|]. split.
    + rewrite map_app. simpl. rewrite Hst', Hfailed, skippedResults_status.
      reflexivity.
    + rewrite nth_error_app2 by (rewrite (Hlen _ Hst'); lia).
      rewrite (Hlen _ Hst'), Nat.sub_diag. reflexivity.
  - rewrite Hrun. autorewrite with result.
    unfold endingTrace, registrationTrace, beforeTrace, afterTrace.
    autorewrite with executed. rewrite Hex. simpl.
    destruct (PluginManager.output _); simpl; rewrite ?app_nil_r; reflexivity.
  - exists e. split; [exact He|]. intros r Hr.
    rewrite Hrun in Hr. autorewrite with result in Hr.
    destruct (ending G ctx); [|discriminate].
    inversion Hr; subst r. inversion Hresult as [Hres].
    destruct (firstRejection (Hooks.after (Journey.hooks journey))) as [e'|].
    + split; [reflexivity|discriminate].
    + rewrite fold_left_app. cbn [fold_left].
      rewrite (markFailed_succeeded ds)
        by (rewrite (Hlen _ Hst); exact Hst).
      assert (Hm : markFailed (JourneyResult.mk succeeded None) d
                   = JourneyResult.mk failed (Some e))
        by (unfold markFailed; rewrite Hfailed, He; reflexivity).
      rewrite Hm, markFailed_skipped. simpl. auto.
  - intros Hend. rewrite Hrun. autorewrite with result. rewrite Hend. eauto.
Qed.

Lemma first_failure_skips_the_rest_witness :
  skipLaw [StepResult.mk succeeded (Some "http://localhost/a") None None None;
           StepResult.mk failed (Some "about:blank") None (Some Sample.x) None;
           StepResult.mk skipped None None None None] /\
  executed (trace_of (runJourney Sample.gatherer Sample.J Sample.options Sample.idle))
    = [Sample.A] ++ [Sample.B] /\
  exists e, Some Sample.x = Some e /\
    forall r,
      completion (runJourney Sample.gatherer Sample.J Sample.options Sample.idle)
        = Normal r ->
      JourneyResult.status r = failed /\
      (firstRejection (Hooks.after (Journey.hooks Sample.J)) = None ->
       JourneyResult.error r = Some e).
Proof.
  destruct first_failure_skips_the_rest as [Hlaw Hfirst].
  split.
  - apply (Hlaw Sample.J Sample.context Sample.options Sample.idle).
    + reflexivity.
    + repeat apply Forall_cons; try apply Forall_nil;
        solve [discriminate | reflexivity].
  - pose proof (Hfirst Sample.gatherer Sample.J Sample.options
                  Sample.idle Sample.driver Sample.plugins
                  [Sample.A] Sample.B [Sample.C]
                  (StepResult.mk failed (Some "about:blank") None (Some Sample.x) None)
                  eq_refl eq_refl eq_refl eq_refl eq_refl) as H.
    simpl in H.
    destruct H as (_ & Hexec & Herr & _).
    + intros s' [<-|[]]. eexists. split; reflexivity.
    + reflexivity.
    + reflexivity.
    + reflexivity.
    + split; [exact Hexec|exact Herr].
Defined.

(** ** What the step loop performs *)

Lemma runStep_actions {S} step ctx options (this : S) :
  forallb stepAction (trace_of (runStep step ctx options this)) = true.
Proof. step_cases step ctx options; reflexivity. Qed.

Lemma runStep_trace {S S'} step ctx options (a : S) (b : S') :
  trace_of (runStep step ctx options a) = trace_of (runStep step ctx options b).
Proof. rewrite (runStep_eq _ _ _ a), (runStep_eq _ _ _ b). reflexivity. Qed.

Section StepLoopTrace.
Variable journey : Journey.t.
Variable ctx : JourneyContext.t.
Variable options : RunOptions.t.

Local Abbreviation loop := (runSteps_loop journey ctx options).

Lemma loop_actions steps skipStep results this :
  forallb stepAction (trace_of (loop steps skipStep results this)) = true.
Proof.
  revert skipStep results.
  induction steps as [|step rest IH]; intros skipStep results.
  - reflexivity.
  - destruct skipStep.
    + specialize (IH true (results ++ [StepResult.init skipped])).
      rewrite loop_skip in *. autorewrite with result in *.
      simpl. exact IH.
    + destruct (completion (runStep step ctx options this)) as [d|e] eqn:E.
      * erewrite loop_run by exact E. autorewrite with result.
        cbn [forallb stepAction andb]. rewrite forallb_app.
        rewrite runStep_actions. cbn [forallb stepAction andb].
        rewrite forallb_app, IH.
        destruct (RunOptions.pauseOnError options && has_error d); reflexivity.
      * erewrite loop_throw by exact E. autorewrite with result.
        cbn [forallb stepAction andb]. apply runStep_actions.
Qed.

(** The loop reads nothing of the instance. *)
Lemma loop_indep steps skipStep results (a b : Runner.t) :
  completion (loop steps skipStep results a) = completion (loop steps skipStep results b) /\
  trace_of (loop steps skipStep results a) = trace_of (loop steps skipStep results b).
Proof.
  revert skipStep results.
  induction steps as [|step rest IH]; intros skipStep results.
  - split; reflexivity.
  - destruct skipStep.
    + rewrite !loop_skip. split; reflexivity.
    + pose proof (runStep_completion step ctx options a b) as Hc.
      pose proof (runStep_trace step ctx options a b) as Ht.
      destruct (completion (runStep step ctx options a)) as [d|e] eqn:E.
      * symmetry in Hc.
        erewrite loop_run by exact E. erewrite loop_run by exact Hc.
        autorewrite with result.
        destruct (IH (has_error d) (results ++ [d])) as [-> ->].
        rewrite Ht. split; reflexivity.
      * symmetry in Hc.
        erewrite loop_throw by exact E. erewrite loop_throw by exact Hc.
        autorewrite with result. rewrite Ht. split; reflexivity.
Qed.
End StepLoopTrace.

Lemma runSteps_indep journey ctx options (a b : Runner.t) :
  completion (runSteps journey ctx options a) = completion (runSteps journey ctx options b) /\
  trace_of (runSteps journey ctx options a) = trace_of (runSteps journey ctx options b).
Proof. apply loop_indep. Qed.

Lemma stepAction_journeyAction t :
  forallb stepAction t = true -> forallb journeyAction t = true.
Proof.
  induction t as [|a t IH]; simpl; [reflexivity|].
  intros H. apply andb_prop in H. destruct H as [Ha Ht].
  rewrite (IH Ht). unfold journeyAction. rewrite Ha. reflexivity.
Qed.

Lemma stepAction_hookCalls t : forallb stepAction t = true -> hookCalls t = [].
Proof.
  induction t as [|a t IH]; simpl; [reflexivity|].
  intros H. apply andb_prop in H. destruct H as [Ha Ht].
  rewrite IH by exact Ht. destruct a; try discriminate Ha; reflexivity.
Qed.

Lemma stepAction_disposals d t : forallb stepAction t = true -> disposals d t = 0.
Proof.
  unfold disposals. induction t as [|a t IH]; simpl; [reflexivity|].
  intros H. apply andb_prop in H. destruct H as [Ha Ht].
  destruct a; try discriminate Ha; simpl; auto.
Qed.

(** ** C2: release of the driver *)

Lemma runJourney_try_catch_actions journey ctx options this :
  forallb journeyAction (trace_of (runJourney_try_catch journey ctx options this)) = true.
Proof.
  assert (Hh : forall cbs, forallb journeyAction (map CallHook cbs) = true)
    by (induction cbs; simpl; auto).
  pose proof (stepAction_journeyAction _
                (loop_actions journey ctx options (Journey.steps journey) false []
                   (set_currentJourney (Some journey) this))) as Hs.
  fold (runSteps journey ctx options (set_currentJourney (Some journey) this)) in Hs.
  rewrite runJourney_try_catch_eq.
  unfold registrationTrace, beforeTrace, afterTrace.
  destruct (Journey.callback journey); [|reflexivity].
  destruct (firstRejection (Hooks.before (Journey.hooks journey)));
    autorewrite with result.
  { simpl. apply Hh. }
  destruct (completion (runSteps journey ctx options _)); autorewrite with result;
    simpl; rewrite !forallb_app, ?Hh, ?Hs; reflexivity.
Qed.

Lemma journeyAction_disposals_try_catch d journey ctx options this :
  disposals d (trace_of (runJourney_try_catch journey ctx options this)) = 0.
Proof.
  pose proof (stepAction_disposals d _
                (loop_actions journey ctx options (Journey.steps journey) false []
                   (set_currentJourney (Some journey) this))) as Hs.
  fold (runSteps journey ctx options (set_currentJourney (Some journey) this)) in Hs.
  rewrite runJourney_try_catch_eq.
  unfold registrationTrace, beforeTrace, afterTrace.
  destruct (Journey.callback journey); [|reflexivity].
  destruct (firstRejection (Hooks.before (Journey.hooks journey)));
    autorewrite with result.
  { rewrite disposals_app, disposals_hooks. reflexivity. }
  destruct (completion (runSteps journey ctx options _)); autorewrite with result;
    rewrite !disposals_app, ?disposals_hooks, ?Hs; reflexivity.
Qed.

(** How often [runJourney] disposes the driver that [setupDriver] returned:
    once when the recording began and the plugin manager's output was
    gathered, otherwise not at all. *)
Lemma runJourney_disposals G journey options this driver :
  Gatherer.setupDriver G options = Normal driver ->
  disposals (Driver.id driver) (trace_of (runJourney G journey options this)) =
    match Gatherer.beginRecording G driver options with
    | Normal pluginManager =>
        match PluginManager.output pluginManager with
        | Normal _ => 1
        | Throw _ => 0
        end
    | Throw _ => 0
    end.
Proof.
  intros Hd.
  destruct (Gatherer.beginRecording G driver options) as [pluginManager|e] eqn:Hp.
  - destruct (runJourney_try_catch_normal journey
                (JourneyContext.mk (RunOptions.params options) driver pluginManager)
                options this) as [result Hr].
    rewrite (@runJourney_eq G journey options this _ _ _ Hd Hp Hr).
    autorewrite with result.
    rewrite !disposals_app, journeyAction_disposals_try_catch.
    unfold endingTrace. cbn [JourneyContext.pluginManager JourneyContext.driver].
    destruct (PluginManager.output pluginManager); [|reflexivity].
    unfold disposals. simpl. rewrite Nat.eqb_refl. reflexivity.
  - unfold runJourney. unfold bind at 1. rewrite createContext_eq, Hd, Hp.
    reflexivity.
Qed.

(** C2: the driver is not released on every path.  With a plugin manager
    whose [output] rejects (artifact gathering fails), and with a
    [beginRecording] that rejects (context creation fails after the driver
    was set up), [runJourney] sets up driver 7, throws, and never calls
    [dispose] on it. *)
Theorem driver_not_disposed :
  (Gatherer.setupDriver Faulty.gathererNoOutput Sample.options = Normal Sample.driver /\
   In SetupDriver
     (trace_of (runJourney Faulty.gathererNoOutput Sample.J1 Sample.options Sample.idle)) /\
   completion (runJourney Faulty.gathererNoOutput Sample.J1 Sample.options Sample.idle)
     = Throw Faulty.boom /\
   disposals (Driver.id Sample.driver)
     (trace_of (runJourney Faulty.gathererNoOutput Sample.J1 Sample.options Sample.idle))
     = 0) /\
  (Gatherer.setupDriver Faulty.gathererNoRecording Sample.options = Normal Sample.driver /\
   trace_of (runJourney Faulty.gathererNoRecording Sample.J1 Sample.options Sample.idle)
     = [SetupDriver; BeginRecording (Driver.id Sample.driver)] /\
   completion (runJourney Faulty.gathererNoRecording Sample.J1 Sample.options Sample.idle)
     = Throw Faulty.boom /\
   disposals (Driver.id Sample.driver)
     (trace_of (runJourney Faulty.gathererNoRecording Sample.J1 Sample.options Sample.idle))
     = 0).
Proof.
  split; (split; [reflexivity|]); (split; [|split; reflexivity]).
  - vm_compute. auto.
  - reflexivity.
Qed.
(** ** The run orchestrator *)

Lemma run_loop_run W options journey rest result this r this1 t :
  RunOptions.dryRun options = false ->
  filteredOut options journey = false ->
  runJourney (World.gatherer W journey) journey options this = (Normal r, this1, t) ->
  run_loop W options (journey :: rest) result this =
    (completion (run_loop W options rest (assign result (Journey.name journey) r) this1),
     state_of (run_loop W options rest (assign result (Journey.name journey) r) this1),
     t ++ trace_of (run_loop W options rest (assign result (Journey.name journey) r) this1)).
Proof.
  intros Hdry Hf Hr. cbn [run_loop]. rewrite Hdry, Hf.
  unfold bind at 1. rewrite Hr.
  destruct (run_loop W options rest _ this1) as [[c s] u]. reflexivity.
Qed.

Lemma run_loop_throw W options journey rest result this e this1 t :
  RunOptions.dryRun options = false ->
  filteredOut options journey = false ->
  runJourney (World.gatherer W journey) journey options this = (Throw e, this1, t) ->
  run_loop W options (journey :: rest) result this = (Throw e, this1, t).
Proof.
  intros Hdry Hf Hr. cbn [run_loop]. rewrite Hdry, Hf.
  unfold bind at 1. rewrite Hr. reflexivity.
Qed.

(** In a dry run the loop emits [journey:register] for each journey and
    does nothing else. *)
Lemma run_loop_dry W options journeys result this :
  RunOptions.dryRun options = true ->
  run_loop W options journeys result this =
    (Normal result, this, map (fun j => Emit (Ev_journey_register j)) journeys).
Proof.
  intros Hdry. induction journeys as [|journey rest IH]; cbn [run_loop].
  - reflexivity.
  - rewrite Hdry. unfold bind, emit, tell. rewrite IH. reflexivity.
Qed.


(** [run] on an instance that is active: the guard returns at once. *)
Lemma run_guarded W options this :
  Runner.active this = true -> run W options this = (Normal [], this, []).
Proof.
  intros Hactive. unfold run, bind, get. rewrite Hactive. reflexivity.
Qed.

(** [run] on an instance that is not active, stage by stage. *)
Lemma run_eq W options this :
  Runner.active this = false ->
  run W options this =
    match firstRejection (SuiteHooks.beforeAll (Runner.hooks this)) with
    | Some e => (Throw e, set_active true this, openingTrace W options this)
    | None =>
        let looped := run_loop W options (Runner.journeys this) [] (set_active true this) in
        let this2 := state_of looped in
        match completion looped with
        | Throw e => (Throw e, this2, openingTrace W options this ++ trace_of looped)
        | Normal result =>
            match firstRejection (SuiteHooks.afterAll (Runner.hooks this2)) with
            | Some e =>
                (Throw e, this2,
                 openingTrace W options this ++ trace_of looped
                   ++ map CallHook (SuiteHooks.afterAll (Runner.hooks this2)))
            | None =>
                (Normal result, Runner.mk false None [] (Runner.hooks this2),
                 openingTrace W options this ++ trace_of looped
                   ++ map CallHook (SuiteHooks.afterAll (Runner.hooks this2))
                   ++ [Emit Ev_end])
            end
        end
    end.
Proof.
  intros Hactive.
  unfold run, openingTrace, runBeforeAllHook, runAfterAllHook, reset, emit.
  unfold bind, get, modify, tell, ret. rewrite Hactive.
  cbn [set_active Runner.hooks Runner.journeys]. rewrite runParallel_eq.
  destruct (firstRejection (SuiteHooks.beforeAll (Runner.hooks this))) as [e|];
    [reflexivity|].
  destruct (run_loop W options (Runner.journeys this) [] (set_active true this))
    as [[[result|e] this2] t]; autorewrite with result; cbn zeta;
    [|reflexivity].
  rewrite runParallel_eq.
  destruct (firstRejection (SuiteHooks.afterAll (Runner.hooks this2))) as [e|];
    simpl; rewrite ?app_nil_r, <- ?app_assoc; reflexivity.
Qed.

(** ** C3: failures of the stages of a journey *)

(** C3, as stated, fails for context creation: when [setupDriver] rejects,
    the exception leaves [runJourney], and it leaves [run], which never
    reaches the second journey. *)
Lemma context_creation_failure_propagates :
  Gatherer.setupDriver Faulty.gathererNoDriver Sample.options = Throw Faulty.boom /\
  completion (runJourney Faulty.gathererNoDriver Sample.J1 Sample.options Sample.idle)
    = Throw Faulty.boom /\
  Runner.journeys Sample.idle = [Sample.J1; Sample.J] /\
  run Faulty.worldNoDriver Sample.options Sample.idle =
    (Throw Faulty.boom,
     Runner.mk true None [Sample.J1; Sample.J] (SuiteHooks.mk [] []),
     [NewReporter "default"; Emit (Ev_start 2); SetupDriver]).
Proof. repeat split; reflexivity. Qed.

(** C3 (amended): once the context of a journey exists, an exception thrown
    by the registration callback or by the before-hooks, or by the
    after-hooks (which run when registration, before-hooks and step loop
    completed), is caught at the journey boundary: the journey's result is
    [failed] with that exception as its error; when the ending of the
    journey (artifact gathering, dispose) does not throw, [runJourney]
    returns that result and the loop of [run] goes on with the remaining
    journeys.  An exception thrown during context creation is not caught:
    it leaves [runJourney] and the loop of [run]. *)
Theorem journey_stage_failure_recovered G journey options this :
  (forall driver pluginManager e,
      Gatherer.setupDriver G options = Normal driver ->
      Gatherer.beginRecording G driver options = Normal pluginManager ->
      let ctx := JourneyContext.mk (RunOptions.params options) driver pluginManager in
      Journey.callback journey = Throw e \/
      (Journey.callback journey = Normal tt /\
       firstRejection (Hooks.before (Journey.hooks journey)) = Some e) \/
      (Journey.callback journey = Normal tt /\
       firstRejection (Hooks.before (Journey.hooks journey)) = None /\
       (exists stepResults,
           completion (runSteps journey ctx options this) = Normal stepResults) /\
       firstRejection (Hooks.after (Journey.hooks journey)) = Some e) ->
      completion (runJourney_try_catch journey ctx options this)
        = Normal (JourneyResult.mk failed (Some e)) /\
      (ending G ctx = Normal tt ->
       completion (runJourney G journey options this)
         = Normal (JourneyResult.mk failed (Some e)) /\
       forall W rest result,
         World.gatherer W journey = G ->
         RunOptions.dryRun options = false ->
         filteredOut options journey = false ->
         completion (run_loop W options (journey :: rest) result this) =
         completion (run_loop W options rest
                       (assign result (Journey.name journey)
                          (JourneyResult.mk failed (Some e)))
                       (set_currentJourney (Some journey) this)))) /\
  (forall e,
      completion (createContext G options this) = Throw e ->
      completion (runJourney G journey options this) = Throw e /\
      forall W rest result,
        World.gatherer W journey = G ->
        RunOptions.dryRun options = false ->
        filteredOut options journey = false ->
        completion (run_loop W options (journey :: rest) result this) = Throw e).
Proof.
  split.
  - intros driver pluginManager e Hd Hp ctx Hstage.
    assert (Hcatch : completion (runJourney_try_catch journey ctx options this)
                     = Normal (JourneyResult.mk failed (Some e))).
    { rewrite runJourney_try_catch_eq.
      destruct Hstage as [Hcb|[[Hcb Hb]|(Hcb & Hb & [srs Hsrs] & Ha)]].
      - rewrite Hcb. reflexivity.
      - rewrite Hcb, Hb. reflexivity.
      - rewrite Hcb, Hb.
        destruct (runSteps_indep journey ctx options
                    (set_currentJourney (Some journey) this) this) as [-> _].
        rewrite Hsrs, Ha. reflexivity. }
    split; [exact Hcatch|]. intros Hend.
    pose proof (@runJourney_eq G journey options this _ _ _ Hd Hp Hcatch) as Hrun.
    fold ctx in Hrun. rewrite Hend in Hrun.
    split; [rewrite Hrun; reflexivity|].
    intros W rest result HW Hdry Hf. subst G.
    rewrite (@run_loop_run W options journey rest result this _ _ _ Hdry Hf Hrun).
    reflexivity.
  - intros e Hctx.
    assert (Hrun : runJourney G journey options this
                   = (Throw e, this, trace_of (createContext G options this))).
    { unfold runJourney. unfold bind at 1.
      rewrite createContext_eq in *.
      destruct (Gatherer.setupDriver G options) as [driver|e'].
      - destruct (Gatherer.beginRecording G driver options); [discriminate Hctx|].
        inversion Hctx. reflexivity.
      - inversion Hctx. reflexivity. }
    split; [rewrite Hrun; reflexivity|].
    intros W rest result HW Hdry Hf. subst G.
    rewrite (@run_loop_throw W options journey rest result this _ _ _ Hdry Hf Hrun).
    reflexivity.
Qed.

Lemma journey_stage_failure_recovered_witness :
  completion (runJourney Sample.gatherer Faulty.Jb Sample.options Sample.idle)
    = Normal (JourneyResult.mk failed (Some Sample.y)) /\
  completion (runJourney Faulty.gathererNoDriver Faulty.Jb Sample.options Sample.idle)
    = Throw Faulty.boom.
Proof.
  destruct (journey_stage_failure_recovered Sample.gatherer Faulty.Jb Sample.options
              Sample.idle) as [Hcaught _].
  destruct (journey_stage_failure_recovered Faulty.gathererNoDriver Faulty.Jb
              Sample.options Sample.idle) as [_ Hthrown].
  split.
  - apply (Hcaught Sample.driver Sample.plugins Sample.y eq_refl eq_refl).
    + right. left. split; reflexivity.
    + reflexivity.
  - apply (Hthrown Faulty.boom). reflexivity.
Defined.

(** ** C4: failures inside the step executor *)

(** C4, as stated, fails for screenshot capture: the capture is part of the
    [finally] block, so when it rejects, [runStep] returns no StepResult;
    the exception leaves [runStep]. *)
Lemma screenshot_failure_propagates :
  Page.screenshot Faulty.pageNoScreenshot Sample.C = Throw Faulty.boom /\
  runStep Sample.C Faulty.contextNoScreenshot Faulty.withScreenshots Sample.idle =
    (Throw Faulty.boom, Sample.idle,
     [OnStep Sample.C; CallStep Sample.C; PageUrl Sample.C;
      WaitForLoadState Sample.C; Screenshot Sample.C]) /\
  forall d : StepResult.t,
    completion (runStep Sample.C Faulty.contextNoScreenshot Faulty.withScreenshots
                  Sample.idle) <> Normal d.
Proof. repeat split. discriminate. Qed.

(** C4 (amended): an exception thrown by the step callback or by metrics
    retrieval is caught inside [runStep] and recorded: when the finishing
    actions do not throw, [runStep] returns a StepResult with status [failed]
    and that error.  An exception thrown by the finishing actions (the wait
    for the load state, the screenshot capture) is not caught: it leaves
    [runStep]. *)
Theorem step_failure_recorded {S} step ctx options (this : S) :
  let pluginManager := JourneyContext.pluginManager ctx in
  let page := Driver.page (JourneyContext.driver ctx) in
  (forall e,
      (PluginManager.onStep pluginManager step = Normal tt /\
       Step.callback step = Throw e) \/
      (PluginManager.onStep pluginManager step = Normal tt /\
       Step.callback step = Normal tt /\
       RunOptions.metrics options = true /\
       PluginManager.getMetrics pluginManager step = Throw e) ->
      RunOptions.screenshots options = false \/
      (Page.waitForLoadState page step = Normal tt /\
       exists shot, Page.screenshot page step = Normal shot) ->
      exists d,
        completion (runStep step ctx options this) = Normal d /\
        StepResult.status d = failed /\
        StepResult.error d = Some e) /\
  (forall e,
      RunOptions.screenshots options = true ->
      Page.waitForLoadState page step = Throw e \/
      (Page.waitForLoadState page step = Normal tt /\
       Page.screenshot page step = Throw e) ->
      completion (runStep step ctx options this) = Throw e).
Proof.
  intros pluginManager page. subst pluginManager page. split.
  - intros e Htry Hfin.
    step_cases step ctx options;
      repeat match goal with
        | H : _ \/ _ |- _ => destruct H
        | H : _ /\ _ |- _ => destruct H
        | H : exists _, _ |- _ => destruct H
        | H : Throw _ = Throw _ |- _ => inversion H; clear H; subst
        end;
      try discriminate; eexists; repeat split; reflexivity.
  - intros e Hshots Hfin.
    step_cases step ctx options;
      repeat match goal with
        | H : _ \/ _ |- _ => destruct H
        | H : _ /\ _ |- _ => destruct H
        | H : Throw _ = Throw _ |- _ => inversion H; clear H; subst
        end;
      try discriminate; reflexivity.
Qed.

Lemma step_failure_recorded_witness :
  (exists d,
      completion (runStep Sample.B Sample.context Sample.options Sample.idle) = Normal d /\
      StepResult.status d = failed /\ StepResult.error d = Some Sample.x) /\
  completion (runStep Sample.B Faulty.contextNoScreenshot Faulty.withScreenshots
                Sample.idle) = Throw Faulty.boom.
Proof.
  split.
  - apply (proj1 (step_failure_recorded Sample.B Sample.context Sample.options
                    Sample.idle) Sample.x).
    + left. split; reflexivity.
    + left. reflexivity.
  - apply (proj2 (step_failure_recorded Sample.B Faulty.contextNoScreenshot
                    Faulty.withScreenshots Sample.idle) Faulty.boom).
    + reflexivity.
    + right. split; reflexivity.
Defined.

(** ** C5: the reentrancy guard *)

(** C5: on an instance whose [active] flag is set, [run] returns the empty
    result at once: it performs nothing (no event, no reporter, no call), and
    it leaves every field of the instance as it was. *)
Theorem run_while_active W options this :
  Runner.active this = true ->
  run W options this = (Normal [], this, []).
Proof.
  intros Hactive. unfold run. unfold bind at 1. cbn [get]. rewrite Hactive.
  reflexivity.
Qed.

Lemma run_while_active_witness :
  run Sample.world Sample.options Sample.busy = (Normal [], Sample.busy, []).
Proof. apply (run_while_active Sample.world Sample.options Sample.busy). reflexivity. Defined.

(** ** C6: the events of a journey *)

(** C6, as stated, fails when a stage throws.  With a [before] hook that
    throws, journey [Jb] has steps but no step event is emitted; when the
    screenshot capture of the first step rejects, its [step:start] is not
    followed by a [step:end]; when the plugin manager's [output] rejects, no
    [journey:end] is emitted. *)
Lemma journey_events_cut_short :
  (Journey.steps Faulty.Jb = [Sample.A; Sample.C] /\
   events (trace_of (runJourney Sample.gatherer Faulty.Jb Sample.options Sample.idle)) =
     [Ev_journey_start Faulty.Jb [];
      Ev_journey_end Faulty.Jb failed (Some Sample.y) [] ["film"] ["net"]
        (Some ["console"])]) /\
  events (trace_of (runJourney Faulty.gathererNoScreenshot Sample.J1
                      Faulty.withScreenshots Sample.idle)) =
    [Ev_journey_start Sample.J1 [];
     Ev_step_start Sample.J1 Sample.A;
     Ev_journey_end Sample.J1 failed (Some Faulty.boom) [] ["film"] ["net"]
       (Some ["console"])] /\
  events (trace_of (runJourney Faulty.gathererNoOutput Sample.J1 Sample.options
                      Sample.idle)) =
    [Ev_journey_start Sample.J1 [];
     Ev_step_start Sample.J1 Sample.A;
     Ev_step_end Sample.J1 Sample.A
       (StepResult.mk succeeded (Some "http://localhost/a") None None None);
     Ev_step_start Sample.J1 Sample.C;
     Ev_step_end Sample.J1 Sample.C
       (StepResult.mk succeeded (Some "about:blank") None None None)].
Proof. repeat split; reflexivity. Qed.

Lemma run_loop_cons W options journey rest result this :
  RunOptions.dryRun options = false ->
  filteredOut options journey = false ->
  trace_of (run_loop W options (journey :: rest) result this) =
    trace_of (runJourney (World.gatherer W journey) journey options this) ++
    match completion (runJourney (World.gatherer W journey) journey options this) with
    | Normal r =>
        trace_of (run_loop W options rest (assign result (Journey.name journey) r)
                    (state_of (runJourney (World.gatherer W journey) journey options this)))
    | Throw _ => []
    end.
Proof.
  intros Hdry Hf.
  destruct (runJourney (World.gatherer W journey) journey options this)
    as [[[r|e] this1] t] eqn:Hr; autorewrite with result.
  - rewrite (@run_loop_run W options journey rest result this _ _ _ Hdry Hf Hr).
    reflexivity.
  - rewrite (@run_loop_throw W options journey rest result this _ _ _ Hdry Hf Hr).
    autorewrite with result. rewrite app_nil_r. reflexivity.
Qed.

(** C6 (amended): for a journey whose context was created, whose
    registration and before-hooks completed, whose step loop returned and
    whose artifacts were gathered, the events emitted are exactly:
    [journey:start], then for each step in order its [step:start]
    immediately followed by its [step:end] (for skipped steps too), then
    [journey:end]; all of them carry this journey.  In the loop of [run],
    everything the journey performs comes in one block, before anything of
    the journeys after it. *)
Theorem journey_event_sequence
    G journey options this driver pluginManager stepResults out :
  Gatherer.setupDriver G options = Normal driver ->
  Gatherer.beginRecording G driver options = Normal pluginManager ->
  let ctx := JourneyContext.mk (RunOptions.params options) driver pluginManager in
  Journey.callback journey = Normal tt ->
  firstRejection (Hooks.before (Journey.hooks journey)) = None ->
  completion (runSteps journey ctx options this) = Normal stepResults ->
  PluginManager.output pluginManager = Normal out ->
  List.length stepResults = List.length (Journey.steps journey) /\
  (exists result,
      events (trace_of (runJourney G journey options this)) =
        Ev_journey_start journey (RunOptions.params options)
          :: flat_map (stepEvents journey) (combine (Journey.steps journey) stepResults)
          ++ [journeyEnd journey ctx result out]) /\
  (forall W rest result,
      World.gatherer W journey = G ->
      RunOptions.dryRun options = false ->
      filteredOut options journey = false ->
      exists later,
        trace_of (run_loop W options (journey :: rest) result this) =
          trace_of (runJourney G journey options this) ++ later).
Proof.
  intros Hd Hp ctx Hcb Hb Hsteps Hout.
  destruct (runSteps_indep journey ctx options
              (set_currentJourney (Some journey) this) this) as [Hc Ht].
  destruct (loop_returns journey ctx options (Journey.steps journey) false [] this Hsteps)
    as (news & Hnews & Hlen & Hev).
  simpl in Hnews. subst news.
  fold (runSteps journey ctx options this) in Hev.
  destruct (runJourney_try_catch_normal journey ctx options this) as [result Hresult].
  pose proof (@runJourney_eq G journey options this _ _ _ Hd Hp Hresult) as Hrun.
  fold ctx in Hrun.
  split; [exact Hlen|]. split.
  - exists result. rewrite Hrun. autorewrite with result.
    rewrite runJourney_try_catch_eq, Hcb, Hb, Hc, Hsteps. autorewrite with result.
    unfold endingTrace, registrationTrace, beforeTrace, afterTrace.
    cbn [JourneyContext.pluginManager ctx]. rewrite Hout, Ht.
    autorewrite with events. rewrite Hev. simpl. rewrite app_nil_r. reflexivity.
  - intros W rest res HW Hdry Hf. subst G.
    rewrite (@run_loop_cons W options journey rest res this Hdry Hf). eauto.
Qed.


Lemma journey_event_sequence_witness :
  exists result,
    events (trace_of (runJourney Sample.gatherer Sample.J Sample.options Sample.idle)) =
      Ev_journey_start Sample.J (RunOptions.params Sample.options)
        :: flat_map (stepEvents Sample.J)
             (combine (Journey.steps Sample.J)
                [StepResult.mk succeeded (Some "http://localhost/a") None None None;
                 StepResult.mk failed (Some "about:blank") None (Some Sample.x) None;
                 StepResult.init skipped])
        ++ [journeyEnd Sample.J Sample.context result
              (PluginOutput.mk ["film"] ["net"] ["console"])].
Proof.
  apply (@journey_event_sequence Sample.gatherer Sample.J Sample.options Sample.idle
           Sample.driver Sample.plugins _ _ eq_refl eq_refl eq_refl eq_refl eq_refl
           eq_refl).
Defined.

(** ** C7: dry run *)

Lemma hooks_dryRunAction cbs : forallb dryRunAction (map CallHook cbs) = true.
Proof. induction cbs; simpl; auto. Qed.

Lemma register_dryRunAction js :
  forallb dryRunAction (map (fun j => Emit (Ev_journey_register j)) js) = true.
Proof. induction js; simpl; auto. Qed.

Lemma registrations_app t1 t2 :
  registrations (t1 ++ t2) = registrations t1 ++ registrations t2.
Proof. apply flat_map_app. Qed.

Lemma registrations_hooks cbs : registrations (map CallHook cbs) = [].
Proof. induction cbs; simpl; auto. Qed.

Lemma registrations_register js :
  registrations (map (fun j => Emit (Ev_journey_register j)) js) = js.
Proof. induction js; simpl; congruence. Qed.

(** C7, as stated, fails in two cases: on an instance that is already
    active, and when a [beforeAll] hook throws, a dry run emits no
    [journey:register] event although two journeys are registered; in the
    second case [run] throws instead of returning an empty mapping. *)
Lemma dry_run_without_registrations :
  RunOptions.dryRun Faulty.dry = true /\
  (Runner.journeys Sample.busy = [Sample.J1; Sample.J] /\
   run Sample.world Faulty.dry Sample.busy = (Normal [], Sample.busy, [])) /\
  (Runner.journeys Faulty.idleFailingBeforeAll = [Sample.J1; Sample.J] /\
   completion (run Sample.world Faulty.dry Faulty.idleFailingBeforeAll)
     = Throw Sample.y /\
   trace_of (run Sample.world Faulty.dry Faulty.idleFailingBeforeAll) =
     [NewReporter "default"; Emit (Ev_start 2); CallHook Faulty.failingHook]).
Proof. repeat split; reflexivity. Qed.

(** C7 (amended): a run with [dryRun] set performs nothing but the
    construction of the reporter, the run-level hooks and the events
    [start], [journey:register] and [end]: it emits no [step:start],
    [step:end], [journey:start] or [journey:end] event and executes no
    journey; a result it returns is the empty mapping.  When the instance is
    not already active and the [beforeAll] hooks do not throw, it emits
    exactly one [journey:register] per registered journey, in order; when
    moreover the [afterAll] hooks do not throw, it returns the empty
    mapping. *)
Theorem dry_run_registers_only W options this :
  RunOptions.dryRun options = true ->
  forallb dryRunAction (trace_of (run W options this)) = true /\
  (forall result, completion (run W options this) = Normal result -> result = []) /\
  (Runner.active this = false ->
   firstRejection (SuiteHooks.beforeAll (Runner.hooks this)) = None ->
   registrations (trace_of (run W options this)) = Runner.journeys this /\
   (firstRejection (SuiteHooks.afterAll (Runner.hooks this)) = None ->
    completion (run W options this) = Normal [])).
Proof.
  intros Hdry.
  destruct (Runner.active this) eqn:Hactive.
  { rewrite (run_guarded W options this Hactive).
    repeat split; try discriminate. intros result H. inversion H. reflexivity. }
  rewrite (run_eq W options this Hactive). unfold openingTrace.
  rewrite (@run_loop_dry W options (Runner.journeys this) [] (set_active true this) Hdry).
  autorewrite with result. cbn zeta. cbn [set_active Runner.hooks].
  destruct (firstRejection (SuiteHooks.beforeAll (Runner.hooks this))) as [e|];
    autorewrite with result.
  { repeat split; try discriminate. simpl. apply hooks_dryRunAction. }
  destruct (firstRejection (SuiteHooks.afterAll (Runner.hooks this))) as [e|];
    autorewrite with result.
  - split; [|split; [discriminate|]].
    + simpl. rewrite !forallb_app, hooks_dryRunAction, register_dryRunAction,
        hooks_dryRunAction. reflexivity.
    + intros _ _. split; [|discriminate].
      rewrite !registrations_app, !registrations_hooks, registrations_register.
      simpl. rewrite app_nil_r. reflexivity.
  - split; [|split].
    + simpl. rewrite !forallb_app, hooks_dryRunAction, register_dryRunAction,
        hooks_dryRunAction. reflexivity.
    + intros result H. inversion H. reflexivity.
    + intros _ _. split; [|reflexivity].
      rewrite !registrations_app, !registrations_hooks, registrations_register.
      simpl. rewrite app_nil_r. reflexivity.
Qed.

Lemma dry_run_registers_only_witness :
  registrations (trace_of (run Sample.world Faulty.dry Sample.idle))
    = Runner.journeys Sample.idle /\
  completion (run Sample.world Faulty.dry Sample.idle) = Normal [].
Proof.
  destruct (dry_run_registers_only Sample.world Faulty.dry Sample.idle eq_refl)
    as (_ & _ & H).
  destruct (H eq_refl eq_refl) as [Hreg Hret].
  split; [exact Hreg|exact (Hret eq_refl)].
Defined.

(** ** C8: when the after-hooks run *)

Lemma runSteps_hookCalls journey ctx options this :
  hookCalls (trace_of (runSteps journey ctx options this)) = [].
Proof. apply stepAction_hookCalls. apply loop_actions. Qed.

(** C8: once the context of a journey exists, the after-hooks are called
    (each once, after the before-hooks) whenever registration, the
    before-hooks and the step loop completed without throwing, whatever the
    status of the step results; when one of these stages threw, no
    after-hook is called, and the thrown error is the journey's error: the
    result after [try]/[catch] is [failed] with that error, it is the result
    announced by [journey:end], and it is the result [runJourney] returns
    when the ending of the journey does not throw. *)
Theorem after_hooks_rule G journey options this driver pluginManager :
  Gatherer.setupDriver G options = Normal driver ->
  Gatherer.beginRecording G driver options = Normal pluginManager ->
  let ctx := JourneyContext.mk (RunOptions.params options) driver pluginManager in
  let before := Hooks.before (Journey.hooks journey) in
  let after := Hooks.after (Journey.hooks journey) in
  (forall stepResults,
      Journey.callback journey = Normal tt ->
      firstRejection before = None ->
      completion (runSteps journey ctx options this) = Normal stepResults ->
      hookCalls (trace_of (runJourney G journey options this)) = before ++ after) /\
  (forall e,
      Journey.callback journey = Throw e \/
      (Journey.callback journey = Normal tt /\ firstRejection before = Some e) \/
      (Journey.callback journey = Normal tt /\ firstRejection before = None /\
       completion (runSteps journey ctx options this) = Throw e) ->
      hookCalls (trace_of (runJourney G journey options this)) =
        match Journey.callback journey with
        | Normal _ => before
        | Throw _ => []
        end /\
      completion (runJourney_try_catch journey ctx options this)
        = Normal (JourneyResult.mk failed (Some e)) /\
      (forall out,
          PluginManager.output pluginManager = Normal out ->
          In (Emit (journeyEnd journey ctx (JourneyResult.mk failed (Some e)) out))
            (trace_of (runJourney G journey options this))) /\
      (ending G ctx = Normal tt ->
       completion (runJourney G journey options this)
         = Normal (JourneyResult.mk failed (Some e)))).
Proof.
  intros Hd Hp ctx before after. subst before after.
  destruct (runSteps_indep journey ctx options
              (set_currentJourney (Some journey) this) this) as [Hc Ht].
  assert (Hend : forall result, hookCalls (endingTrace G journey ctx result) = []).
  { intros result. unfold endingTrace.
    destruct (PluginManager.output _); reflexivity. }
  split.
  - intros stepResults Hcb Hb Hsteps.
    destruct (runJourney_try_catch_normal journey ctx options this) as [result Hresult].
    rewrite (@runJourney_eq G journey options this _ _ _ Hd Hp Hresult).
    fold ctx. autorewrite with result.
    rewrite runJourney_try_catch_eq, Hcb, Hb, Hc, Hsteps. autorewrite with result.
    unfold registrationTrace, beforeTrace, afterTrace.
    rewrite !hookCalls_app, Hend, !hookCalls_hooks, runSteps_hookCalls.
    simpl. rewrite app_nil_r. reflexivity.
  - intros e Hstage.
    assert (Hcatch : runJourney_try_catch journey ctx options this =
              (Normal (JourneyResult.mk failed (Some e)),
               set_currentJourney (Some journey) this,
               registrationTrace journey ctx ++
               match Journey.callback journey with
               | Normal _ =>
                   beforeTrace journey ++
                   match firstRejection (Hooks.before (Journey.hooks journey)) with
                   | None => trace_of (runSteps journey ctx options this)
                   | Some _ => []
                   end
               | Throw _ => []
               end)).
    { rewrite runJourney_try_catch_eq.
      destruct Hstage as [Hcb|[[Hcb Hb]|(Hcb & Hb & Hsteps)]].
      - rewrite Hcb, app_nil_r. reflexivity.
      - rewrite Hcb, Hb, app_nil_r. reflexivity.
      - rewrite Hcb, Hb, Hc, Ht, Hsteps. reflexivity. }
    assert (Hresult : completion (runJourney_try_catch journey ctx options this)
                      = Normal (JourneyResult.mk failed (Some e)))
      by (rewrite Hcatch; reflexivity).
    pose proof (@runJourney_eq G journey options this _ _ _ Hd Hp Hresult) as Hrun.
    fold ctx in Hrun. rewrite Hcatch in Hrun. autorewrite with result in Hrun.
    rewrite Hrun. autorewrite with result.
    split; [|split; [exact Hresult|split]].
    + unfold registrationTrace, beforeTrace.
      rewrite !hookCalls_app, Hend.
      destruct (Journey.callback journey); [|reflexivity].
      rewrite hookCalls_app, hookCalls_hooks.
      destruct (firstRejection (Hooks.before (Journey.hooks journey)));
        rewrite ?runSteps_hookCalls; simpl; rewrite ?app_nil_r; reflexivity.
    + intros out Hout. unfold endingTrace.
      cbn [JourneyContext.pluginManager ctx]. rewrite Hout.
      apply in_or_app. right. apply in_or_app. right. simpl. auto.
    + intros Hending. rewrite Hending. reflexivity.
Qed.

Lemma after_hooks_rule_witness :
  hookCalls (trace_of (runJourney Sample.gatherer Sample2.Jy Sample.options Sample.idle))
    = [] ++ [Sample2.teardown] /\
  hookCalls (trace_of (runJourney Sample.gatherer Faulty.Jr Sample.options Sample.idle))
    = [] /\
  completion (runJourney Sample.gatherer Faulty.Jr Sample.options Sample.idle)
    = Normal (JourneyResult.mk failed (Some Sample.y)).
Proof.
  destruct (@after_hooks_rule Sample.gatherer Sample2.Jy Sample.options Sample.idle
              Sample.driver Sample.plugins eq_refl eq_refl) as [Hrun _].
  destruct (@after_hooks_rule Sample.gatherer Faulty.Jr Sample.options Sample.idle
              Sample.driver Sample.plugins eq_refl eq_refl) as [_ Hskip].
  destruct (Hskip Sample.y (or_introl eq_refl)) as (Hcalls & _ & _ & Hret).
  split; [|split].
  - exact (Hrun _ eq_refl eq_refl eq_refl).
  - exact Hcalls.
  - exact (Hret eq_refl).
Defined.

(** ** C9: the url of a step result *)

Lemma deliver_unsubscribed reqs u :
  deliver reqs (mkCapture u false) = mkCapture u false.
Proof. induction reqs as [|req rest IH]; simpl; auto. Qed.

(** What [captureUrl] leaves in [data.url]: the url of the first request
    of the step if that request is a navigation request, otherwise nothing;
    the closure is unsubscribed as soon as any request was seen. *)
Lemma captured_url reqs :
  deliver reqs (mkCapture None true) =
    match reqs with
    | [] => mkCapture None true
    | req :: _ =>
        mkCapture (if Request.isNavigationRequest req
                   then Some (Request.url req) else None) false
    end.
Proof.
  destruct reqs as [|req rest]; [reflexivity|].
  unfold deliver. cbn [fold_left]. fold (deliver rest).
  unfold onRequest. cbn [subscribed]. unfold captureUrl. cbn [data_url not_url andb].
  apply deliver_unsubscribed.
Qed.

(** The [url] of a result [runStep] returns: the captured url, or else the
    current url of the page, unless the plugin manager's pre-step hook threw
    (then the callback never ran and nothing was captured). *)
Lemma runStep_url {S} step ctx options (this : S) d :
  completion (runStep step ctx options this) = Normal d ->
  StepResult.url d =
    match PluginManager.onStep (JourneyContext.pluginManager ctx) step,
          data_url (deliver (Step.requests step) (mkCapture None true)) with
    | Normal _, Some u => Some u
    | _, _ => Some (Page.url (Driver.page (JourneyContext.driver ctx)) step)
    end.
Proof.
  step_cases step ctx options; intros H; inversion H; reflexivity.
Qed.

(** C9: the url is not always that of the first navigation request.  While
    step [clickThrough] runs, the page emits a request that is not a
    navigation and then a navigation request to "http://localhost/next";
    [captureUrl] unsubscribes on the first of the two without capturing, and
    the StepResult reports the page's url, "about:blank". *)
Theorem first_navigation_not_captured :
  firstNavigation (Step.requests Faulty.clickThrough) = Some "http://localhost/next" /\
  runStep Faulty.clickThrough Sample.context Sample.options Sample.idle =
    (Normal (StepResult.mk succeeded (Some "about:blank") None None None),
     Sample.idle,
     [OnStep Faulty.clickThrough; CallStep Faulty.clickThrough;
      PageUrl Faulty.clickThrough]).
Proof. split; reflexivity. Qed.


(** ** C10: a run-level hook that throws *)

Lemma set_currentJourney_idem cj cj' this :
  set_currentJourney cj' (set_currentJourney cj this) = set_currentJourney cj' this.
Proof. reflexivity. Qed.

Lemma set_currentJourney_same this :
  set_currentJourney (Runner.currentJourney this) this = this.
Proof. destruct this. reflexivity. Qed.

(** A journey execution changes at most the [currentJourney] field. *)
Lemma runJourney_state G journey options this :
  exists cj, state_of (runJourney G journey options this) = set_currentJourney cj this.
Proof.
  destruct (Gatherer.setupDriver G options) as [driver|e] eqn:Hd.
  - destruct (Gatherer.beginRecording G driver options) as [pluginManager|e] eqn:Hp.
    + destruct (runJourney_try_catch_normal journey
                  (JourneyContext.mk (RunOptions.params options) driver pluginManager)
                  options this) as [result Hr].
      rewrite (@runJourney_eq G journey options this _ _ _ Hd Hp Hr).
      eexists. reflexivity.
    + exists (Runner.currentJourney this). rewrite set_currentJourney_same.
      unfold runJourney. unfold bind at 1. rewrite createContext_eq, Hd, Hp.
      reflexivity.
  - exists (Runner.currentJourney this). rewrite set_currentJourney_same.
    unfold runJourney. unfold bind at 1. rewrite createContext_eq, Hd.
    reflexivity.
Qed.

Lemma runJourney_actions G journey options this :
  forallb journeyAction (trace_of (runJourney G journey options this)) = true.
Proof.
  destruct (Gatherer.setupDriver G options) as [driver|e] eqn:Hd.
  - destruct (Gatherer.beginRecording G driver options) as [pluginManager|e] eqn:Hp.
    + destruct (runJourney_try_catch_normal journey
                  (JourneyContext.mk (RunOptions.params options) driver pluginManager)
                  options this) as [result Hr].
      rewrite (@runJourney_eq G journey options this _ _ _ Hd Hp Hr).
      autorewrite with result.
      rewrite !forallb_app, runJourney_try_catch_actions.
      unfold endingTrace. destruct (PluginManager.output _); reflexivity.
    + unfold runJourney. unfold bind at 1. rewrite createContext_eq, Hd, Hp.
      reflexivity.
  - unfold runJourney. unfold bind at 1. rewrite createContext_eq, Hd.
    reflexivity.
Qed.

Lemma journeyAction_loopAction t :
  forallb journeyAction t = true -> forallb loopAction t = true.
Proof.
  induction t as [|a t IH]; simpl; [reflexivity|].
  intros H. apply andb_prop in H. destruct H as [Ha Ht].
  rewrite (IH Ht). unfold loopAction. rewrite Ha. reflexivity.
Qed.

(** The loop of [run] changes at most the [currentJourney] field, and
    performs only actions of journeys and [journey:register] events. *)
Lemma run_loop_frame W options journeys result this :
  (exists cj,
      state_of (run_loop W options journeys result this) = set_currentJourney cj this) /\
  forallb loopAction (trace_of (run_loop W options journeys result this)) = true.
Proof.
  revert result this.
  induction journeys as [|journey rest IH]; intros result this.
  - split; [|reflexivity].
    exists (Runner.currentJourney this). rewrite set_currentJourney_same. reflexivity.
  - destruct (RunOptions.dryRun options) eqn:Hdry.
    { rewrite (@run_loop_dry W options (journey :: rest) result this Hdry).
      autorewrite with result. split.
      - exists (Runner.currentJourney this). rewrite set_currentJourney_same.
        reflexivity.
      - clear. induction (journey :: rest); simpl; auto. }
    destruct (filteredOut options journey) eqn:Hf.
    { cbn [run_loop]. rewrite Hdry, Hf. apply IH. }
    destruct (runJourney_state (World.gatherer W journey) journey options this)
      as [cj Hcj].
    pose proof (journeyAction_loopAction _
                  (runJourney_actions (World.gatherer W journey) journey options this))
      as Hact.
    destruct (runJourney (World.gatherer W journey) journey options this)
      as [[[r|e] this1] t] eqn:Hr; autorewrite with result in Hcj, Hact; subst this1.
    + rewrite (@run_loop_run W options journey rest result this _ _ _ Hdry Hf Hr).
      autorewrite with result.
      destruct (IH (assign result (Journey.name journey) r)
                  (set_currentJourney cj this)) as [[cj' Hcj'] Hact'].
      split.
      * exists cj'. rewrite Hcj'. apply set_currentJourney_idem.
      * rewrite forallb_app, Hact, Hact'. reflexivity.
    + rewrite (@run_loop_throw W options journey rest result this _ _ _ Hdry Hf Hr).
      autorewrite with result. split; [exists cj; reflexivity|exact Hact].
Qed.

Lemma loopAction_no_end t :
  forallb loopAction t = true -> ~ In Ev_end (events t).
Proof.
  induction t as [|a t IH]; simpl; [tauto|].
  intros H. apply andb_prop in H. destruct H as [Ha Ht].
  specialize (IH Ht). unfold events in *. simpl. intros Hin.
  apply in_app_or in Hin. destruct Hin as [Hin|Hin]; [|tauto].
  destruct a as [[] | | | | | | | | | | | | | |]; simpl in Hin, Ha;
    try discriminate; intuition discriminate.
Qed.

(** Calls of [run] on an active instance all return the empty mapping and
    perform nothing. *)
Lemma runAll_while_active W calls this :
  Runner.active this = true ->
  runAll W calls this = (Normal (map (fun _ => []) calls), this, []).
Proof.
  intros Hactive. induction calls as [|options rest IH]; cbn [runAll map].
  - reflexivity.
  - unfold bind at 1. rewrite (run_guarded W options this Hactive).
    unfold bind at 1. rewrite IH. reflexivity.
Qed.

(** C10: when a [beforeAll] hook throws, or when the loop over the journeys
    completed and an [afterAll] hook throws, the exception leaves [run]
    before [reset]: the [active] flag is left set, the journey list is not
    cleared, no [end] event is emitted, and every later call of [run] on
    the instance returns the empty mapping and performs nothing. *)
Theorem run_level_hook_failure W options this e :
  Runner.active this = false ->
  firstRejection (SuiteHooks.beforeAll (Runner.hooks this)) = Some e \/
  (firstRejection (SuiteHooks.beforeAll (Runner.hooks this)) = None /\
   (exists result,
       completion (run_loop W options (Runner.journeys this) [] (set_active true this))
         = Normal result) /\
   firstRejection (SuiteHooks.afterAll (Runner.hooks this)) = Some e) ->
  let after := state_of (run W options this) in
  completion (run W options this) = Throw e /\
  Runner.active after = true /\
  Runner.journeys after = Runner.journeys this /\
  ~ In Ev_end (events (trace_of (run W options this))) /\
  forall W' calls,
    runAll W' calls after = (Normal (map (fun _ => []) calls), after, []).
Proof.
  intros Hactive Hhook after. subst after.
  destruct (run_loop_frame W options (Runner.journeys this) [] (set_active true this))
    as [[cj Hstate] Hact].
  rewrite (run_eq W options this Hactive). unfold openingTrace.
  destruct Hhook as [Hb|(Hb & [result Hres] & Ha)]; rewrite Hb.
  - autorewrite with result. repeat split.
    + autorewrite with events. simpl. intros [H|[]]. discriminate H.
    + intros W' calls. apply runAll_while_active. reflexivity.
  - cbn zeta. rewrite Hres, Hstate. cbn [set_currentJourney set_active Runner.hooks].
    rewrite Ha. autorewrite with result. repeat split.
    + rewrite !events_app, !events_hooks, app_nil_r. simpl.
      intros [H|H]; [discriminate H|].
      rewrite app_nil_r in H. exact (loopAction_no_end _ Hact H).
    + intros W' calls. apply runAll_while_active. reflexivity.
Qed.

Lemma run_level_hook_failure_witness :
  completion (run Sample.world Sample.options Faulty.idleFailingBeforeAll)
    = Throw Sample.y /\
  completion (run Sample.world Sample.options Faulty.idleFailingAfterAll)
    = Throw Sample.y /\
  Runner.active (state_of (run Sample.world Sample.options Faulty.idleFailingAfterAll))
    = true.
Proof.
  split; [|split].
  - apply (@run_level_hook_failure Sample.world Sample.options
             Faulty.idleFailingBeforeAll Sample.y eq_refl).
    left. reflexivity.
  - apply (@run_level_hook_failure Sample.world Sample.options
             Faulty.idleFailingAfterAll Sample.y eq_refl).
    right. split; [reflexivity|]. split; [eexists; reflexivity|reflexivity].
  - apply (@run_level_hook_failure Sample.world Sample.options
             Faulty.idleFailingAfterAll Sample.y eq_refl).
    right. split; [reflexivity|]. split; [eexists; reflexivity|reflexivity].
Defined.

(** * Further properties of the engine *)

(** ** The step executor: metrics, screenshot, url *)

(** A step result carries metrics exactly when metrics were requested and
    the step succeeded, and then they are what [getMetrics] returned; a
    failed step never carries metrics, and [getMetrics] is not even called
    when the step callback threw. *)
Theorem metrics_only_on_success {S} step ctx options (this : S) d :
  completion (runStep step ctx options this) = Normal d ->
  (StepResult.metrics d <> None <->
   RunOptions.metrics options = true /\ StepResult.status d = succeeded) /\
  (forall m, StepResult.metrics d = Some m ->
     PluginManager.getMetrics (JourneyContext.pluginManager ctx) step = Normal m) /\
  (forall e, Step.callback step = Throw e ->
     ~ In (GetMetrics step) (trace_of (runStep step ctx options this))).
Proof.
  step_cases step ctx options; intros H; inversion H; subst; simpl;
    (split; [|split]);
    try (split; [intros Hm; try (exfalso; apply Hm; reflexivity); auto
                |intros [Ho Hs]; try discriminate; auto]);
    try (intros m Hm; congruence);
    try (intros e' He' Hin; try discriminate He';
         repeat destruct Hin as [Hin|Hin]; try discriminate Hin; auto).
Qed.

Lemma metrics_only_on_success_witness :
  (StepResult.metrics
     (StepResult.mk failed (Some "about:blank") None (Some Sample.x) None) <> None <->
   RunOptions.metrics (RunOptions.mk [] true false false None false ReporterUnset) = true /\
   failed = succeeded) /\
  ~ In (GetMetrics Sample.B)
      (trace_of (runStep Sample.B Sample.context
                   (RunOptions.mk [] true false false None false ReporterUnset)
                   Sample.idle)).
Proof.
  destruct (@metrics_only_on_success Runner.t Sample.B Sample.context
              (RunOptions.mk [] true false false None false ReporterUnset)
              Sample.idle
              (StepResult.mk failed (Some "about:blank") None (Some Sample.x) None)
              eq_refl) as (H1 & _ & H3).
  split; [exact H1|exact (H3 Sample.x eq_refl)].
Defined.

(** When screenshots are requested, every result [runStep] returns carries
    the captured screenshot, for a failed step as for a succeeded one; when
    they are not requested, the result carries none and the page is neither
    waited on nor captured. *)
Theorem screenshot_whatever_the_outcome {S} step ctx options (this : S) d :
  completion (runStep step ctx options this) = Normal d ->
  (RunOptions.screenshots options = true ->
   exists shot,
     Page.screenshot (Driver.page (JourneyContext.driver ctx)) step = Normal shot /\
     StepResult.screenshot d = Some shot) /\
  (RunOptions.screenshots options = false ->
   StepResult.screenshot d = None /\
   ~ In (WaitForLoadState step) (trace_of (runStep step ctx options this)) /\
   ~ In (Screenshot step) (trace_of (runStep step ctx options this))).
Proof.
  step_cases step ctx options; intros H; inversion H; subst; simpl;
    (split; [intros Hs; try discriminate Hs; eexists; split; reflexivity
            |intros Hs; try discriminate Hs;
             repeat split; intros Hin;
             repeat destruct Hin as [Hin|Hin]; try discriminate Hin; auto]).
Qed.

Lemma screenshot_whatever_the_outcome_witness :
  exists shot,
    Page.screenshot (Driver.page (JourneyContext.driver Sample.context)) Sample.B
      = Normal shot /\
    StepResult.screenshot
      (StepResult.mk failed (Some "about:blank") None (Some Sample.x) (Some "/9j/4AAQ"))
      = Some shot.
Proof.
  apply (proj1 (@screenshot_whatever_the_outcome Runner.t Sample.B Sample.context
                  Faulty.withScreenshots Sample.idle
                  (StepResult.mk failed (Some "about:blank") None (Some Sample.x)
                     (Some "/9j/4AAQ"))
                  eq_refl)).
  reflexivity.
Defined.

(** Every result [runStep] returns has a url.  When the pre-step hook
    returned and the first request of the step is a navigation request, it
    is the url of that request; when the step made no request, or the
    pre-step hook threw, it is the current url of the page. *)
Theorem step_url_always_present {S} step ctx options (this : S) d :
  completion (runStep step ctx options this) = Normal d ->
  let onStep := PluginManager.onStep (JourneyContext.pluginManager ctx) step in
  let pageUrl := Page.url (Driver.page (JourneyContext.driver ctx)) step in
  StepResult.url d <> None /\
  (forall req rest,
      onStep = Normal tt ->
      Step.requests step = req :: rest ->
      Request.isNavigationRequest req = true ->
      StepResult.url d = Some (Request.url req)) /\
  (Step.requests step = [] -> StepResult.url d = Some pageUrl) /\
  (forall e, onStep = Throw e -> StepResult.url d = Some pageUrl).
Proof.
  intros H onStep pageUrl. subst onStep pageUrl.
  rewrite (runStep_url _ _ _ _ H), captured_url.
  split; [|split; [|split]].
  - destruct (PluginManager.onStep _ step); [|discriminate].
    destruct (Step.requests step) as [|req rest]; cbn [data_url]; [discriminate|].
    destruct (Request.isNavigationRequest req); discriminate.
  - intros req rest Ho Hreq Hnav. rewrite Ho, Hreq. cbn [data_url].
    rewrite Hnav. reflexivity.
  - intros Hreq. rewrite Hreq. cbn [data_url].
    destruct (PluginManager.onStep _ step); reflexivity.
  - intros e Ho. rewrite Ho. reflexivity.
Qed.

Lemma step_url_always_present_witness :
  StepResult.url
    (StepResult.mk succeeded (Some "http://localhost/a") None None None)
    = Some (Request.url (Request.mk true "http://localhost/a")).
Proof.
  apply (proj1 (proj2 (@step_url_always_present Runner.t Sample.A Sample.context
                         Sample.options Sample.idle
                         (StepResult.mk succeeded (Some "http://localhost/a")
                            None None None)
                         eq_refl))
           (Request.mk true "http://localhost/a") [] eq_refl eq_refl eq_refl).
Defined.

(** ** The step loop: shape of the results, pause *)

Lemma runStep_waits {S} step ctx options (this : S) :
  waits (trace_of (runStep step ctx options this)) = 0.
Proof. step_cases step ctx options; reflexivity. Qed.

Lemma waits_app t1 t2 : waits (t1 ++ t2) = waits t1 + waits t2.
Proof. unfold waits. rewrite filter_app, length_app. reflexivity. Qed.

Lemma waits_cons_emit e t : waits (Emit e :: t) = waits t.
Proof. reflexivity. Qed.

Lemma waits_emit es : waits (map Emit es) = 0.
Proof. induction es; simpl; auto. Qed.

Lemma skippedResults_repeat steps :
  skippedResults steps = repeat (StepResult.init skipped) (List.length steps).
Proof. induction steps; simpl; congruence. Qed.

Lemma skippedResults_length steps :
  List.length (skippedResults steps) = List.length steps.
Proof. apply length_map. Qed.

Lemma existsb_false_Forall {A} (f : A -> bool) l :
  existsb f l = false <-> Forall (fun a => f a = false) l.
Proof.
  induction l as [|a l IH]; simpl.
  - split; [constructor|reflexivity].
  - rewrite orb_false_iff, IH. split.
    + intros [Ha Hl]. constructor; assumption.
    + intros H. inversion H. auto.
Qed.

(** A result of [runStep]: never [skipped]; [failed] if it holds a truthy
    error; without an error if [succeeded]; and with a url. *)
Lemma runStep_wellformed {S} step ctx options (this : S) d :
  completion (runStep step ctx options this) = Normal d ->
  StepResult.status d <> skipped /\
  (has_error d = true -> StepResult.status d = failed) /\
  (StepResult.status d = succeeded -> StepResult.error d = None) /\
  StepResult.url d <> None.
Proof.
  step_cases step ctx options; intros H; inversion H; subst; unfold has_error; simpl;
    repeat split; try discriminate; try congruence.
Qed.

Section StepLoopShape.
Variable journey : Journey.t.
Variable ctx : JourneyContext.t.
Variable options : RunOptions.t.

Local Abbreviation loop := (runSteps_loop journey ctx options).

(** From a clear flag the loop pushes the results [ran] of the steps it
    runs while none holds a truthy error, none of them [skipped]; then it
    stops, or pushes one [failed] result that holds a truthy error and the
    bare skipped result for every step after it.  It waits for standard
    input once if it is asked to pause and a result holds a truthy error. *)
Lemma loop_shape steps results this rs :
  completion (loop steps false results this) = Normal rs ->
  exists ran rest,
    rs = results ++ ran ++ rest /\
    Forall (fun d => StepResult.status d <> skipped /\ has_error d = false) ran /\
    (rest = [] \/
     exists d m, rest = d :: repeat (StepResult.init skipped) m /\
                 StepResult.status d = failed /\ has_error d = true) /\
    List.length (ran ++ rest) = List.length steps /\
    waits (trace_of (loop steps false results this)) =
      (if RunOptions.pauseOnError options && existsb has_error (ran ++ rest)
       then 1 else 0).
Proof.
  revert results rs.
  induction steps as [|step steps IH]; intros results rs H.
  - exists [], []. simpl in H. inversion H.
    rewrite app_nil_r, andb_false_r. repeat split; auto.
  - destruct (completion (runStep step ctx options this)) as [d|e] eqn:E.
    2:{ erewrite loop_throw in H by exact E. discriminate H. }
    erewrite loop_run in * by exact E. autorewrite with result in *.
    destruct (runStep_has_error _ _ _ _ E) as (Hns & Hfailed & _).
    destruct (has_error d) eqn:Herr.
    + rewrite loop_skip in *. autorewrite with result in *.
      inversion H as [Hrs].
      exists [], (d :: skippedResults steps).
      split; [rewrite <- app_assoc; reflexivity|].
      split; [constructor|].
      split; [right; exists d, (List.length steps);
              rewrite skippedResults_repeat; auto|].
      split; [simpl; rewrite skippedResults_length; reflexivity|].
      rewrite waits_cons_emit, waits_app, waits_cons_emit, waits_app.
      rewrite runStep_waits, waits_emit. simpl. rewrite Herr. simpl.
      rewrite !andb_true_r.
      destruct (RunOptions.pauseOnError options); reflexivity.
    + destruct (IH _ _ H) as (ran & rest & Hrs & Hran & Hrest & Hlen & Hw).
      exists (d :: ran), rest.
      rewrite <- app_assoc in Hrs.
      split; [exact Hrs|].
      split; [constructor; auto|].
      split; [exact Hrest|].
      split; [simpl; congruence|].
      rewrite waits_cons_emit, waits_app, waits_cons_emit, waits_app.
      rewrite runStep_waits, Hw, andb_false_r. simpl. rewrite Herr. reflexivity.
Qed.
End StepLoopShape.

Lemma filter_failed_statuses results :
  List.length (filter is_failed results) =
  List.length (filter (fun s => StatusValue_eqb s failed) (map StepResult.status results)).
Proof.
  induction results as [|d rest IH]; simpl; [reflexivity|].
  unfold is_failed at 1. destruct (StatusValue_eqb (StepResult.status d) failed);
    simpl; congruence.
Qed.

Lemma filter_failed_repeat (s : StatusValue) n :
  s <> failed -> filter (fun s => StatusValue_eqb s failed) (repeat s n) = [].
Proof.
  intros Hs. induction n; simpl; [reflexivity|].
  destruct s; simpl; try contradiction; exact IHn.
Qed.

Lemma filter_none {A} (f : A -> bool) l :
  Forall (fun a => f a = false) l -> filter f l = [].
Proof. induction 1 as [|a l Ha _ IH]; simpl; [|rewrite Ha]; auto. Qed.

(** The results that are neither [skipped] nor hold a truthy error are
    [succeeded] when every [failed] result holds a truthy error. *)
Lemma ran_succeeded ran :
  Forall (fun d => StepResult.status d <> skipped /\ has_error d = false) ran ->
  Forall (fun d => StepResult.status d = failed -> has_error d = true) ran ->
  map StepResult.status ran = repeat succeeded (List.length ran).
Proof.
  induction 1 as [|d ran [Hns Hne] _ IH]; intros Hall; [reflexivity|].
  inversion Hall as [|? ? Hd Hrest]; subst. simpl. rewrite (IH Hrest).
  destruct (StepResult.status d); try reflexivity.
  - rewrite (Hd eq_refl) in Hne. discriminate Hne.
  - contradiction.
Qed.

(** The results of a step loop that returned, one per step: first the
    results of the steps that were run and hold no truthy error, none of
    them [skipped]; then either nothing more, or one [failed] result that
    holds a truthy error and the bare skipped result for every step after
    it.  So at most one result holds a truthy error; and when every [failed]
    result holds a truthy error, the statuses are [succeeded] for the first
    steps, then nothing more or one [failed] and [skipped] for every step
    after it, with at most one [failed]. *)
Theorem step_results_shape journey ctx options this results :
  completion (runSteps journey ctx options this) = Normal results ->
  List.length results = List.length (Journey.steps journey) /\
  (exists ran rest,
      results = ran ++ rest /\
      Forall (fun d => StepResult.status d <> skipped /\ has_error d = false) ran /\
      (rest = [] \/
       exists d m, rest = d :: repeat (StepResult.init skipped) m /\
                   StepResult.status d = failed /\ has_error d = true)) /\
  List.length (filter has_error results) <= 1 /\
  (Forall (fun d => StepResult.status d = failed -> has_error d = true) results ->
   exists n m stopped,
     map StepResult.status results = stepStatuses n m stopped /\
     List.length (filter is_failed results) = (if stopped then 1 else 0)).
Proof.
  intros H. unfold runSteps in H.
  destruct (loop_shape _ _ _ _ _ _ H) as (ran & rest & Hrs & Hran & Hrest & Hlen & _).
  simpl in Hrs. subst results.
  split; [exact Hlen|]. split; [exists ran, rest; auto|].
  assert (Hnone : filter has_error ran = []).
  { apply filter_none. eapply Forall_impl; [|exact Hran]. simpl. tauto. }
  split.
  - rewrite filter_app, Hnone. simpl.
    destruct Hrest as [->|(d & m & -> & _ & Hd)]; simpl; [lia|].
    rewrite Hd. simpl. rewrite filter_none; [simpl; lia|].
    clear. induction m; simpl; constructor; auto.
  - intros Hall. apply Forall_app in Hall. destruct Hall as [Hall _].
    pose proof (ran_succeeded Hran Hall) as Hst.
    rewrite filter_failed_statuses, map_app, Hst.
    destruct Hrest as [->|(d & m & -> & Hf & _)].
    + exists (List.length ran), 0, false. unfold stepStatuses. simpl.
      rewrite filter_app, filter_failed_repeat by discriminate. auto.
    + exists (List.length ran), m, true. unfold stepStatuses. simpl.
      rewrite Hf, map_repeat. simpl. split; [reflexivity|].
      rewrite filter_app, filter_failed_repeat by discriminate. simpl.
      rewrite filter_failed_repeat by discriminate. reflexivity.
Qed.

Lemma step_results_shape_witness :
  List.length (filter has_error
    [StepResult.mk failed (Some "about:blank") None (Some JsUndefined) None;
     StepResult.mk succeeded (Some "about:blank") None None None]) <= 1 /\
  exists ran rest,
    [StepResult.mk succeeded (Some "http://localhost/a") None None None;
     StepResult.mk failed (Some "about:blank") None (Some Sample.x) None;
     StepResult.init skipped] = ran ++ rest /\
    Forall (fun d => StepResult.status d <> skipped /\ has_error d = false) ran /\
    (rest = [] \/
     exists d m, rest = d :: repeat (StepResult.init skipped) m /\
                 StepResult.status d = failed /\ has_error d = true).
Proof.
  split.
  - apply (@step_results_shape Faulty.Js Sample.context Sample.options Sample.idle).
    reflexivity.
  - apply (@step_results_shape Sample.J Sample.context Sample.options Sample.idle).
    reflexivity.
Defined.

(** Every result of a step loop that returned is well formed: a [skipped]
    result is the bare [{ status: 'skipped' }] (no url, metrics, error,
    screenshot); a result that holds a truthy error is [failed]; a
    [succeeded] result has no error; every result of a step that was run has
    a url. *)
Theorem step_results_wellformed journey ctx options this results :
  completion (runSteps journey ctx options this) = Normal results ->
  Forall (fun d =>
            (StepResult.status d = skipped -> d = StepResult.init skipped) /\
            (has_error d = true -> StepResult.status d = failed) /\
            (StepResult.status d = succeeded -> StepResult.error d = None) /\
            (StepResult.status d <> skipped -> StepResult.url d <> None))
    results.
Proof.
  intros H. unfold runSteps in H.
  eapply loop_Forall; [| |constructor|exact H].
  - simpl. repeat split; try discriminate; try congruence.
  - intros step d Hd.
    destruct (runStep_wellformed _ _ _ _ Hd) as (Hns & Herr & Hok & Hurl).
    split; [contradiction|]. split; [exact Herr|]. split; [exact Hok|].
    intros _. exact Hurl.
Qed.

Lemma step_results_wellformed_witness :
  Forall (fun d =>
            (StepResult.status d = skipped -> d = StepResult.init skipped) /\
            (has_error d = true -> StepResult.status d = failed) /\
            (StepResult.status d = succeeded -> StepResult.error d = None) /\
            (StepResult.status d <> skipped -> StepResult.url d <> None))
    [StepResult.mk succeeded (Some "http://localhost/a") None None None;
     StepResult.mk failed (Some "about:blank") None (Some Sample.x) None;
     StepResult.init skipped].
Proof.
  apply (@step_results_wellformed Sample.J Sample.context Sample.options Sample.idle).
  reflexivity.
Defined.

(** A step loop that returned has waited for standard input once if
    [pauseOnError] is set and a result holds a truthy error, and not at all
    otherwise: the steps after such a result are skipped, and a skipped step
    never pauses; neither does a step that failed with a falsy value. *)
Theorem pause_at_most_once journey ctx options this results :
  completion (runSteps journey ctx options this) = Normal results ->
  waits (trace_of (runSteps journey ctx options this)) =
    (if RunOptions.pauseOnError options && existsb has_error results then 1 else 0).
Proof.
  intros H. unfold runSteps in *.
  destruct (loop_shape _ _ _ _ _ _ H) as (ran & rest & Hrs & _ & _ & _ & Hw).
  simpl in Hrs. subst results. exact Hw.
Qed.

Lemma pause_at_most_once_witness :
  waits (trace_of (runSteps Sample.J Sample.context
                     (RunOptions.mk [] false false true None false ReporterUnset)
                     Sample.idle)) =
    (if true && existsb has_error
          [StepResult.mk succeeded (Some "http://localhost/a") None None None;
           StepResult.mk failed (Some "about:blank") None (Some Sample.x) None;
           StepResult.init skipped]
     then 1 else 0).
Proof.
  apply (@pause_at_most_once Sample.J Sample.context
           (RunOptions.mk [] false false true None false ReporterUnset) Sample.idle).
  reflexivity.
Defined.

(** ** The journey executor: status, [journey:end], release *)

(** A journey that returned had its context created and its ending
    completed. *)
Lemma runJourney_returned G journey options this r :
  completion (runJourney G journey options this) = Normal r ->
  exists driver pluginManager,
    Gatherer.setupDriver G options = Normal driver /\
    Gatherer.beginRecording G driver options = Normal pluginManager /\
    let ctx := JourneyContext.mk (RunOptions.params options) driver pluginManager in
    completion (runJourney_try_catch journey ctx options this) = Normal r /\
    (exists out, PluginManager.output pluginManager = Normal out) /\
    runJourney G journey options this =
      (Normal r, set_currentJourney (Some journey) this,
       [SetupDriver; BeginRecording (Driver.id driver)]
         ++ trace_of (runJourney_try_catch journey ctx options this)
         ++ endingTrace G journey ctx r).
Proof.
  intros H.
  destruct (Gatherer.setupDriver G options) as [driver|e] eqn:Hd.
  2:{ unfold runJourney in H. unfold bind at 1 in H.
      rewrite createContext_eq, Hd in H. discriminate H. }
  destruct (Gatherer.beginRecording G driver options) as [pluginManager|e] eqn:Hp.
  2:{ unfold runJourney in H. unfold bind at 1 in H.
      rewrite createContext_eq, Hd, Hp in H. discriminate H. }
  exists driver, pluginManager.
  split; [first [exact Hd|reflexivity]|]. split; [first [exact Hp|reflexivity]|].
  intros ctx.
  destruct (runJourney_try_catch_normal journey ctx options this) as [result Hresult].
  pose proof (@runJourney_eq G journey options this _ _ _ Hd Hp Hresult) as Hrun.
  fold ctx in Hrun. rewrite Hrun in H. autorewrite with result in H.
  unfold ending in *. cbn [JourneyContext.pluginManager ctx] in *.
  destruct (PluginManager.output pluginManager) as [out|e]; [|discriminate H].
  destruct (Gatherer.dispose G (JourneyContext.driver ctx)); [|discriminate H].
  inversion H; subst result.
  split; [exact Hresult|]. split; [eauto|exact Hrun].
Qed.

(** The fold over the step results leaves the journey result as it was when
    no step result is [failed]; otherwise the result is [failed] and its
    error is the error field of a [failed] step result. *)
Lemma markFailed_fold results acc :
  (fold_left markFailed results acc = acc /\ existsb is_failed results = false) \/
  (exists d, In d results /\ StepResult.status d = failed /\
     fold_left markFailed results acc = JourneyResult.mk failed (StepResult.error d)).
Proof.
  revert acc.
  induction results as [|d rest IH]; intros acc; cbn [fold_left existsb].
  - left. auto.
  - destruct (IH (markFailed acc d)) as [[Hfold Hnone]|(d' & Hin & Hst & Hfold)].
    + unfold markFailed, is_failed in *.
      destruct (StepResult.status d) eqn:Hd; simpl in *.
      * left. auto.
      * right. exists d. split; [left; reflexivity|]. rewrite Hd. auto.
      * left. auto.
    + right. exists d'. split; [right; exact Hin|]. auto.
Qed.

(** A result [runJourney] returns is [succeeded] or [failed], never
    [skipped].  It is [succeeded] only if registration and both hook phases
    completed and every step result is [succeeded], and then it has no
    error.  The error field of a [failed] result holds the value thrown by
    the registration callback, by a before- or after-hook or by the step
    loop, or else the error field of a [failed] step result. *)
Theorem journey_result_invariant G journey options this r :
  completion (runJourney G journey options this) = Normal r ->
  exists driver pluginManager,
    Gatherer.setupDriver G options = Normal driver /\
    Gatherer.beginRecording G driver options = Normal pluginManager /\
    let steps :=
      completion (runSteps journey
                    (JourneyContext.mk (RunOptions.params options) driver pluginManager)
                    options this) in
    (JourneyResult.status r = succeeded /\ JourneyResult.error r = None /\
     Journey.callback journey = Normal tt /\
     firstRejection (Hooks.before (Journey.hooks journey)) = None /\
     firstRejection (Hooks.after (Journey.hooks journey)) = None /\
     exists stepResults,
       steps = Normal stepResults /\
       Forall (fun d => StepResult.status d = succeeded) stepResults) \/
    (JourneyResult.status r = failed /\
     exists v, JourneyResult.error r = Some v /\
       (Journey.callback journey = Throw v \/
        firstRejection (Hooks.before (Journey.hooks journey)) = Some v \/
        steps = Throw v \/
        firstRejection (Hooks.after (Journey.hooks journey)) = Some v \/
        exists stepResults d,
          steps = Normal stepResults /\ In d stepResults /\
          StepResult.status d = failed /\ StepResult.error d = Some v)).
Proof.
  intros H.
  destruct (runJourney_returned _ _ _ _ H)
    as (driver & pluginManager & Hd & Hp & Hr & _ & _).
  exists driver, pluginManager. split; [exact Hd|]. split; [exact Hp|].
  cbv zeta in *. rewrite runJourney_try_catch_eq in Hr.
  set (ctx := JourneyContext.mk (RunOptions.params options) driver pluginManager) in *.
  destruct (runSteps_indep journey ctx options
              (set_currentJourney (Some journey) this) this) as [Hc _].
  rewrite Hc in Hr.
  destruct (Journey.callback journey) as [[]|e];
    [|inversion Hr; right; simpl; eauto 6].
  destruct (firstRejection (Hooks.before (Journey.hooks journey))) as [e|];
    [inversion Hr; right; simpl; eauto 6|].
  destruct (completion (runSteps journey ctx options this)) as [stepResults|e] eqn:Hsteps;
    [|inversion Hr; right; simpl; eauto 7].
  destruct (firstRejection (Hooks.after (Journey.hooks journey))) as [e|];
    [inversion Hr; right; simpl; eauto 8|].
  autorewrite with result in Hr. inversion Hr as [Hfold]. clear Hr.
  destruct (markFailed_fold stepResults (JourneyResult.mk succeeded None))
    as [[-> Hnone]|(d & Hin & Hst & ->)].
  - left. simpl. repeat split; auto.
    exists stepResults. split; [reflexivity|].
    unfold runSteps in Hsteps.
    destruct (loop_shape _ _ _ _ _ _ Hsteps) as (ran & rest & Hrs & Hran & Hrest & _).
    simpl in Hrs. subst stepResults.
    rewrite existsb_app, orb_false_iff in Hnone. destruct Hnone as [Hnran Hnrest].
    destruct Hrest as [->|(d & m & -> & Hf & _)].
    + rewrite app_nil_r. rewrite existsb_false_Forall in Hnran.
      clear - Hran Hnran.
      induction Hran as [|d ran [Hns _] _ IH]; [constructor|].
      inversion Hnran as [|? ? Hd Hrest]; subst.
      constructor; [|exact (IH Hrest)].
      unfold is_failed in Hd. destruct (StepResult.status d);
        [reflexivity|discriminate Hd|contradiction].
    + simpl in Hnrest. unfold is_failed in Hnrest at 1. rewrite Hf in Hnrest.
      discriminate Hnrest.
  - right. simpl. split; [reflexivity|].
    unfold runSteps in Hsteps.
    assert (Hall : Forall (fun d => StepResult.status d = failed ->
                                    exists v, StepResult.error d = Some v) stepResults).
    { eapply loop_Forall; [| |constructor|exact Hsteps].
      - discriminate.
      - intros step d' Hd' Hf.
        destruct (runStep_status _ _ _ _ Hd') as [[Hs _]|[_ He]]; [congruence|exact He]. }
    rewrite Forall_forall in Hall. destruct (Hall d Hin Hst) as [v Hv].
    exists v. split; [exact Hv|]. do 4 right. exists stepResults, d. auto.
Qed.

Lemma journey_result_invariant_witness :
  exists driver pluginManager,
    Gatherer.setupDriver Sample.gatherer Sample.options = Normal driver /\
    Gatherer.beginRecording Sample.gatherer driver Sample.options
      = Normal pluginManager /\
    let steps :=
      completion (runSteps Faulty.Js
                    (JourneyContext.mk (RunOptions.params Sample.options) driver
                       pluginManager)
                    Sample.options Sample.idle) in
    (failed = succeeded /\ Some JsUndefined = None /\
     Journey.callback Faulty.Js = Normal tt /\
     firstRejection (Hooks.before (Journey.hooks Faulty.Js)) = None /\
     firstRejection (Hooks.after (Journey.hooks Faulty.Js)) = None /\
     exists stepResults,
       steps = Normal stepResults /\
       Forall (fun d => StepResult.status d = succeeded) stepResults) \/
    (failed = failed /\
     exists v, Some JsUndefined = Some v /\
       (Journey.callback Faulty.Js = Throw v \/
        firstRejection (Hooks.before (Journey.hooks Faulty.Js)) = Some v \/
        steps = Throw v \/
        firstRejection (Hooks.after (Journey.hooks Faulty.Js)) = Some v \/
        exists stepResults d,
          steps = Normal stepResults /\ In d stepResults /\
          StepResult.status d = failed /\ StepResult.error d = Some v)).
Proof.
  apply (@journey_result_invariant Sample.gatherer Faulty.Js Sample.options Sample.idle
           (JourneyResult.mk failed (Some JsUndefined))).
  reflexivity.
Defined.

Lemma journeyEnds_app t1 t2 : journeyEnds (t1 ++ t2) = journeyEnds t1 ++ journeyEnds t2.
Proof. apply flat_map_app. Qed.

Lemma journeyEnds_hooks cbs : journeyEnds (map CallHook cbs) = [].
Proof. induction cbs; simpl; auto. Qed.

Lemma stepAction_journeyEnds t : forallb stepAction t = true -> journeyEnds t = [].
Proof.
  induction t as [|a t IH]; simpl; [reflexivity|].
  intros H. apply andb_prop in H. destruct H as [Ha Ht].
  rewrite (IH Ht). destruct a as [[]| | | | | | | | | | | | | |];
    try discriminate Ha; reflexivity.
Qed.

Lemma runJourney_try_catch_journeyEnds journey ctx options this :
  journeyEnds (trace_of (runJourney_try_catch journey ctx options this)) = [].
Proof.
  pose proof (stepAction_journeyEnds _
                (loop_actions journey ctx options (Journey.steps journey) false []
                   (set_currentJourney (Some journey) this))) as Hs.
  fold (runSteps journey ctx options (set_currentJourney (Some journey) this)) in Hs.
  rewrite runJourney_try_catch_eq.
  unfold registrationTrace, beforeTrace, afterTrace.
  destruct (Journey.callback journey); [|reflexivity].
  destruct (firstRejection (Hooks.before (Journey.hooks journey)));
    autorewrite with result.
  { rewrite journeyEnds_app, journeyEnds_hooks. reflexivity. }
  destruct (completion (runSteps journey ctx options _)); autorewrite with result;
    rewrite !journeyEnds_app, ?journeyEnds_hooks, ?Hs; reflexivity.
Qed.

(** A journey that returned emitted exactly one [journey:end]: it carries
    the status and the error of the result returned, the params of the
    options, and the filmstrips and the network information that [output] of
    the plugin manager of the journey's recording gave, with the browser
    console it gave only if the journey failed. *)
Theorem journey_end_announces_result G journey options this r :
  completion (runJourney G journey options this) = Normal r ->
  exists driver pluginManager out,
    Gatherer.setupDriver G options = Normal driver /\
    Gatherer.beginRecording G driver options = Normal pluginManager /\
    PluginManager.output pluginManager = Normal out /\
    journeyEnds (trace_of (runJourney G journey options this)) =
      [Ev_journey_end journey (JourneyResult.status r) (JourneyResult.error r)
         (RunOptions.params options)
         (PluginOutput.filmstrips out) (PluginOutput.networkinfo out)
         (match JourneyResult.status r with
          | failed => Some (PluginOutput.browserconsole out)
          | _ => None
          end)].
Proof.
  intros H.
  destruct (runJourney_returned _ _ _ _ H)
    as (driver & pluginManager & Hd & Hp & _ & [out Hout] & Hrun).
  cbv zeta in Hrun. exists driver, pluginManager, out.
  split; [exact Hd|]. split; [exact Hp|]. split; [exact Hout|].
  rewrite Hrun. autorewrite with result.
  rewrite !journeyEnds_app, runJourney_try_catch_journeyEnds.
  unfold endingTrace. cbn [JourneyContext.pluginManager]. rewrite Hout.
  unfold journeyEnd. cbn [JourneyContext.params].
  destruct (JourneyResult.status r); reflexivity.
Qed.

Lemma journey_end_announces_result_witness :
  exists driver pluginManager out,
    Gatherer.setupDriver Sample.gatherer Sample.options = Normal driver /\
    Gatherer.beginRecording Sample.gatherer driver Sample.options
      = Normal pluginManager /\
    PluginManager.output pluginManager = Normal out /\
    journeyEnds (trace_of (runJourney Sample.gatherer Sample.J Sample.options
                             Sample.idle)) =
      [Ev_journey_end Sample.J failed (Some Sample.x)
         (RunOptions.params Sample.options)
         (PluginOutput.filmstrips out) (PluginOutput.networkinfo out)
         (Some (PluginOutput.browserconsole out))].
Proof.
  apply (@journey_end_announces_result Sample.gatherer Sample.J Sample.options
           Sample.idle (JourneyResult.mk failed (Some Sample.x))).
  reflexivity.
Defined.

(** A journey that returned set up its driver first and disposed it last,
    after [journey:end] was emitted, and disposed it exactly once. *)
Theorem driver_set_up_first_disposed_last G journey options this r :
  completion (runJourney G journey options this) = Normal r ->
  exists driver between ended,
    Gatherer.setupDriver G options = Normal driver /\
    trace_of (runJourney G journey options this) =
      SetupDriver :: BeginRecording (Driver.id driver) :: between
        ++ [Emit ended; Dispose (Driver.id driver)] /\
    journeyEnds [Emit ended] = [ended] /\
    disposals (Driver.id driver) (trace_of (runJourney G journey options this)) = 1.
Proof.
  intros H.
  destruct (runJourney_returned _ _ _ _ H)
    as (driver & pluginManager & Hd & Hp & _ & [out Hout] & Hrun).
  cbv zeta in Hrun.
  exists driver,
    (trace_of (runJourney_try_catch journey
                 (JourneyContext.mk (RunOptions.params options) driver pluginManager)
                 options this) ++ [Output journey]),
    (journeyEnd journey
       (JourneyContext.mk (RunOptions.params options) driver pluginManager) r out).
  split; [exact Hd|]. split; [|split].
  - rewrite Hrun. autorewrite with result. unfold endingTrace.
    cbn [JourneyContext.pluginManager JourneyContext.driver]. rewrite Hout.
    simpl. rewrite <- app_assoc. reflexivity.
  - reflexivity.
  - rewrite (@runJourney_disposals G journey options this driver Hd), Hp, Hout.
    reflexivity.
Qed.

Lemma driver_set_up_first_disposed_last_witness :
  exists driver between ended,
    Gatherer.setupDriver Sample.gatherer Sample.options = Normal driver /\
    trace_of (runJourney Sample.gatherer Sample.J1 Sample.options Sample.idle) =
      SetupDriver :: BeginRecording (Driver.id driver) :: between
        ++ [Emit ended; Dispose (Driver.id driver)] /\
    journeyEnds [Emit ended] = [ended] /\
    disposals (Driver.id driver)
      (trace_of (runJourney Sample.gatherer Sample.J1 Sample.options Sample.idle)) = 1.
Proof.
  apply (@driver_set_up_first_disposed_last Sample.gatherer Sample.J1 Sample.options
           Sample.idle (JourneyResult.mk succeeded None)).
  reflexivity.
Defined.

(** ** The run orchestrator: sequencing, filter, result mapping *)

Lemma bind_assoc {S A B C} (m : Prog S A) (f : A -> Prog S B) (g : B -> Prog S C) s :
  bind (bind m f) g s = bind m (fun a => bind (f a) g) s.
Proof.
  unfold bind. destruct (m s) as [[[a|e] s1] t1]; [|reflexivity].
  destruct (f a s1) as [[[b|e] s2] t2]; [|reflexivity].
  destruct (g b s2) as [[c s3] t3]. rewrite app_assoc. reflexivity.
Qed.

Lemma bind_ext {S A B} (m : Prog S A) (f g : A -> Prog S B) s :
  (forall a s', f a s' = g a s') -> bind m f s = bind m g s.
Proof.
  intros H. unfold bind. destruct (m s) as [[[a|e] s1] t1]; [|reflexivity].
  rewrite H. reflexivity.
Qed.

Lemma bind_ret_l {S A B} (a : A) (f : A -> Prog S B) s : bind (ret a) f s = f a s.
Proof. unfold bind, ret. destruct (f a s) as [[c s'] t]. reflexivity. Qed.

Lemma run_loop_app W options l1 l2 result this :
  run_loop W options (l1 ++ l2) result this =
    (result1 <- run_loop W options l1 result ;; run_loop W options l2 result1) this.
Proof.
  revert result this.
  induction l1 as [|journey rest IH]; intros result this.
  - cbn [app run_loop]. rewrite bind_ret_l. reflexivity.
  - cbn [app run_loop].
    destruct (RunOptions.dryRun options).
    + rewrite bind_assoc. apply bind_ext. intros a s'. apply IH.
    + destruct (filteredOut options journey); [apply IH|].
      rewrite bind_assoc. apply bind_ext. intros a s'. apply IH.
Qed.

(** The name filter: a journey that is filtered out leaves no trace at
    all; the loop behaves as the loop over the journeys the filter lets
    through.  These are all the journeys when no name or the empty name is
    given, and otherwise the journeys of that name. *)
Theorem filtered_journeys_untouched W options journeys result this :
  RunOptions.dryRun options = false ->
  run_loop W options journeys result this =
    run_loop W options (selected options journeys) result this /\
  (forall journey,
      In journey (selected options journeys) <->
      In journey journeys /\
      (RunOptions.journeyName options = None \/
       RunOptions.journeyName options = Some "" \/
       RunOptions.journeyName options = Some (Journey.name journey))).
Proof.
  intros Hdry. split.
  - revert result this.
    induction journeys as [|journey rest IH]; intros result this; [reflexivity|].
    cbn [selected filter run_loop]. fold (selected options rest). rewrite Hdry.
    destruct (filteredOut options journey) eqn:Hf; cbn [negb].
    + apply IH.
    + cbn [run_loop]. rewrite Hdry, Hf. apply bind_ext. intros a s'. apply IH.
  - intros journey. unfold selected. rewrite filter_In. unfold filteredOut.
    destruct (RunOptions.journeyName options) as [n|]; [|intuition].
    destruct (String.eqb_spec n "") as [->|Hn]; cbn [negb andb]; [intuition|].
    destruct (String.eqb_spec (Journey.name journey) n) as [->|Hne]; cbn [negb].
    + intuition.
    + split; [intros [_ H]; discriminate H|].
      intros [_ [H|[H|H]]]; try discriminate H; inversion H; congruence.
Qed.

Lemma filtered_journeys_untouched_witness :
  run_loop Sample.world
    (RunOptions.mk [] false false false (Some "J1") false ReporterUnset)
    [Sample.J1; Sample.J] [] Sample.idle =
  run_loop Sample.world
    (RunOptions.mk [] false false false (Some "J1") false ReporterUnset)
    (selected (RunOptions.mk [] false false false (Some "J1") false ReporterUnset)
       [Sample.J1; Sample.J]) [] Sample.idle.
Proof.
  apply (@filtered_journeys_untouched Sample.world
           (RunOptions.mk [] false false false (Some "J1") false ReporterUnset)
           [Sample.J1; Sample.J] [] Sample.idle).
  reflexivity.
Defined.

Lemma keys_assign r k v n :
  In n (keys (assign r k v)) <-> In n (keys r) \/ (n = k /\ k <> "__proto__").
Proof.
  unfold keys. rewrite !filter_In, !in_map_iff.
  assert (Hin : (exists p, fst p = n /\ In p (assign r k v)) <->
                (exists p, fst p = n /\ In p r) \/ n = k).
  { induction r as [|[k' v'] r IH]; simpl.
    - split.
      + intros (p & Hp & [<-|[]]). right. auto.
      + intros [(p & _ & [])| ->]. exists (k, v). auto.
    - destruct (String.eqb_spec k' k) as [->|Hne]; simpl.
      + split.
        * intros (p & Hp & [<-|Hr]); [right; auto|left; eauto].
        * intros [(p & Hp & [<-|Hr])| ->].
          -- exists (k, v). auto.
          -- exists p. auto.
          -- exists (k, v). auto.
      + split.
        * intros (p & Hp & [<-|Hr]); [left; exists (k', v'); auto|].
          destruct (proj1 IH (ex_intro _ p (conj Hp Hr))) as [(q & Hq & Hqr)|Hk];
            [left; exists q; auto|right; exact Hk].
        * intros [(p & Hp & [<-|Hr])|Hk].
          -- exists (k', v'). auto.
          -- destruct (proj2 IH (or_introl (ex_intro _ p (conj Hp Hr))))
               as (q & Hq & Hqr).
             exists q. auto.
          -- destruct (proj2 IH (or_intror Hk)) as (q & Hq & Hqr).
             exists q. auto. }
  rewrite Hin, negb_true_iff, String.eqb_neq. split.
  - intros [[Hp| ->] Hn]; [left; auto|right; auto].
  - intros [[Hp Hn]|[-> Hk]]; auto.
Qed.

Lemma keys_cons k v r :
  keys ((k, v) :: r) = if String.eqb k "__proto__" then keys r else k :: keys r.
Proof. unfold keys. simpl. destruct (String.eqb k "__proto__"); reflexivity. Qed.

Lemma keys_assign_NoDup r k v : NoDup (keys r) -> NoDup (keys (assign r k v)).
Proof.
  induction r as [|[k' v'] r IH]; cbn [assign]; intros H.
  - rewrite keys_cons. destruct (String.eqb k "__proto__"); [exact H|].
    constructor; [intros []|constructor].
  - destruct (String.eqb_spec k' k) as [->|Hne].
    + rewrite keys_cons in *. exact H.
    + rewrite keys_cons in *. destruct (String.eqb k' "__proto__"); [auto|].
      inversion H as [|? ? Hnotin Hr]; subst.
      constructor; [|apply IH; exact Hr].
      intros Hin. apply (keys_assign r k v k') in Hin.
      destruct Hin as [Hin|[Heq _]]; [contradiction|congruence].
Qed.

Lemma lookup_assign_same r k v : lookup (assign r k v) k = Some v.
Proof.
  induction r as [|[k' v'] r IH]; simpl.
  - rewrite String.eqb_refl. reflexivity.
  - destruct (String.eqb_spec k' k) as [->|Hne]; simpl.
    + rewrite String.eqb_refl. reflexivity.
    + destruct (String.eqb_spec k' k); [contradiction|]. exact IH.
Qed.

Lemma lookup_assign_other r k v k0 : k0 <> k -> lookup (assign r k v) k0 = lookup r k0.
Proof.
  intros Hk. induction r as [|[k' v'] r IH]; simpl.
  - destruct (String.eqb_spec k k0); [congruence|reflexivity].
  - destruct (String.eqb_spec k' k) as [->|Hne]; simpl.
    + destruct (String.eqb_spec k k0); [congruence|reflexivity].
    + rewrite IH. reflexivity.
Qed.

Lemma run_loop_keys W options journeys result this final :
  RunOptions.dryRun options = false ->
  completion (run_loop W options journeys result this) = Normal final ->
  (forall n, In n (keys final) <->
     In n (keys result) \/
     (n <> "__proto__" /\
      exists journey, In journey journeys /\ Journey.name journey = n /\
                      filteredOut options journey = false)) /\
  (NoDup (keys result) -> NoDup (keys final)).
Proof.
  intros Hdry. revert result this.
  induction journeys as [|journey rest IH]; intros result this H.
  - simpl in H. inversion H. subst. split; [|auto].
    intros n. split; [auto|]. intros [Hn|(_ & j & [] & _)]. exact Hn.
  - destruct (filteredOut options journey) eqn:Hf.
    + cbn [run_loop] in H. rewrite Hdry, Hf in H.
      destruct (IH _ _ H) as [Hin Hnd]. split; [|exact Hnd].
      intros n. rewrite Hin. split.
      * intros [Hn|(Hp & j & Hj & Hname & Hfj)]; [auto|right].
        split; [exact Hp|]. exists j. simpl. auto.
      * intros [Hn|(Hp & j & [<-|Hj] & Hname & Hfj)]; [auto|congruence|right].
        split; [exact Hp|]. exists j. auto.
    + destruct (runJourney (World.gatherer W journey) journey options this)
        as [[[r|e] this1] t] eqn:Hr.
      * rewrite (@run_loop_run W options journey rest result this _ _ _ Hdry Hf Hr) in H.
        autorewrite with result in H.
        destruct (IH _ _ H) as [Hin Hnd]. split.
        -- intros n. rewrite Hin, keys_assign. split.
           ++ intros [[Hn|[-> Hp]]|(Hp & j & Hj & Hname & Hfj)]; [auto| |].
              ** right. split; [exact Hp|]. exists journey. simpl. auto.
              ** right. split; [exact Hp|]. exists j. simpl. auto.
           ++ intros [Hn|(Hp & j & [<-|Hj] & Hname & Hfj)]; [auto| |].
              ** left. right. subst n. auto.
              ** right. split; [exact Hp|]. exists j. auto.
        -- intros Hres. apply Hnd. apply keys_assign_NoDup. exact Hres.
      * rewrite (@run_loop_throw W options journey rest result this _ _ _ Hdry Hf Hr) in H.
        discriminate H.
Qed.

(** The own keys of the mapping a run returns are exactly the names, other
    than [__proto__], of the registered journeys that the name filter lets
    through, each name once: the assignment made for a journey named
    [__proto__] sets the prototype of the mapping and adds no key.  (In a
    dry run and on an active instance [run] returns the empty mapping.) *)
Theorem run_result_keys W options this final :
  Runner.active this = false ->
  RunOptions.dryRun options = false ->
  completion (run W options this) = Normal final ->
  (forall n, In n (keys final) <->
     n <> "__proto__" /\
     exists journey, In journey (Runner.journeys this) /\ Journey.name journey = n /\
                     filteredOut options journey = false) /\
  NoDup (keys final).
Proof.
  intros Hactive Hdry H. rewrite (run_eq W options this Hactive) in H.
  destruct (firstRejection (SuiteHooks.beforeAll (Runner.hooks this)));
    [discriminate H|].
  cbv zeta in H.
  destruct (completion (run_loop W options (Runner.journeys this) []
                          (set_active true this))) as [result|e] eqn:Hloop;
    [|discriminate H].
  destruct (firstRejection (SuiteHooks.afterAll _)); [discriminate H|].
  autorewrite with result in H. inversion H; subst result.
  destruct (@run_loop_keys W options _ _ _ _ Hdry Hloop) as [Hin Hnd]. split.
  - intros n. rewrite Hin. simpl. intuition.
  - apply Hnd. constructor.
Qed.

Lemma run_result_keys_witness :
  (forall n,
      In n (keys [("J1", JourneyResult.mk succeeded None);
                  ("__proto__", JourneyResult.mk succeeded None)]) <->
      n <> "__proto__" /\
      exists journey, In journey (Runner.journeys Faulty.idleProto) /\
                      Journey.name journey = n /\
                      filteredOut Sample.options journey = false) /\
  NoDup (keys [("J1", JourneyResult.mk succeeded None);
               ("__proto__", JourneyResult.mk succeeded None)]).
Proof.
  apply (@run_result_keys Sample.world Sample.options Faulty.idleProto
           [("J1", JourneyResult.mk succeeded None);
            ("__proto__", JourneyResult.mk succeeded None)]
           eq_refl eq_refl eq_refl).
Defined.

Lemma runJourney_try_catch_indep journey ctx options (a b : Runner.t) :
  completion (runJourney_try_catch journey ctx options a) =
  completion (runJourney_try_catch journey ctx options b).
Proof.
  rewrite !runJourney_try_catch_eq.
  destruct (runSteps_indep journey ctx options
              (set_currentJourney (Some journey) a)
              (set_currentJourney (Some journey) b)) as [-> _].
  destruct (Journey.callback journey); [|reflexivity].
  destruct (firstRejection (Hooks.before (Journey.hooks journey))); [reflexivity|].
  destruct (completion (runSteps journey ctx options _)); reflexivity.
Qed.

(** What a journey execution returns or throws does not depend on the
    instance. *)
Lemma runJourney_indep G journey options (a b : Runner.t) :
  completion (runJourney G journey options a) =
  completion (runJourney G journey options b).
Proof.
  destruct (Gatherer.setupDriver G options) as [driver|e] eqn:Hd.
  - destruct (Gatherer.beginRecording G driver options) as [pluginManager|e] eqn:Hp.
    + destruct (runJourney_try_catch_normal journey
                  (JourneyContext.mk (RunOptions.params options) driver pluginManager)
                  options a) as [result Ha].
      pose proof Ha as Hb. rewrite (runJourney_try_catch_indep _ _ _ a b) in Hb.
      rewrite (@runJourney_eq G journey options a _ _ _ Hd Hp Ha).
      rewrite (@runJourney_eq G journey options b _ _ _ Hd Hp Hb).
      reflexivity.
    + unfold runJourney, bind. rewrite !createContext_eq, Hd, Hp. reflexivity.
  - unfold runJourney, bind. rewrite !createContext_eq, Hd. reflexivity.
Qed.

Lemma run_loop_lookup_frame W options journeys result this final k :
  RunOptions.dryRun options = false ->
  (forall journey, In journey journeys -> filteredOut options journey = false ->
                   Journey.name journey <> k) ->
  completion (run_loop W options journeys result this) = Normal final ->
  lookup final k = lookup result k.
Proof.
  intros Hdry. revert result this.
  induction journeys as [|journey rest IH]; intros result this Hk H.
  - simpl in H. inversion H. reflexivity.
  - assert (Hrest : forall j, In j rest -> filteredOut options j = false ->
                              Journey.name j <> k)
      by (intros j Hj; apply Hk; right; exact Hj).
    destruct (filteredOut options journey) eqn:Hf.
    + cbn [run_loop] in H. rewrite Hdry, Hf in H. apply (IH _ _ Hrest H).
    + destruct (runJourney (World.gatherer W journey) journey options this)
        as [[[r|e] this1] t] eqn:Hr.
      * rewrite (@run_loop_run W options journey rest result this _ _ _ Hdry Hf Hr) in H.
        autorewrite with result in H.
        rewrite (IH _ _ Hrest H). apply lookup_assign_other.
        intros ->. exact (Hk journey (or_introl eq_refl) Hf eq_refl).
      * rewrite (@run_loop_throw W options journey rest result this _ _ _ Hdry Hf Hr) in H.
        discriminate H.
Qed.

(** When the loop of [run] returns, the entry of the mapping under the
    name of an executed journey is the result of that journey's own
    execution, provided no journey executed after it has the same name (the
    entry of a name is overwritten by a later journey of that name). *)
Theorem journey_result_recorded W options pre journey post result this final :
  RunOptions.dryRun options = false ->
  filteredOut options journey = false ->
  (forall later, In later post -> filteredOut options later = false ->
                 Journey.name later <> Journey.name journey) ->
  completion (run_loop W options (pre ++ journey :: post) result this) = Normal final ->
  exists r,
    completion (runJourney (World.gatherer W journey) journey options this) = Normal r /\
    lookup final (Journey.name journey) = Some r.
Proof.
  intros Hdry Hf Hpost H. rewrite run_loop_app in H. unfold bind at 1 in H.
  destruct (run_loop W options pre result this) as [[[result1|e] this1] t1];
    [|discriminate H].
  destruct (run_loop W options (journey :: post) result1 this1) as [[c s] t] eqn:Hloop.
  autorewrite with result in H. subst c.
  destruct (runJourney (World.gatherer W journey) journey options this1)
    as [[[r|e] this2] t2] eqn:Hr.
  - rewrite (@run_loop_run W options journey post result1 this1 _ _ _ Hdry Hf Hr)
      in Hloop.
    inversion Hloop as [[Hc Hs Ht]]. exists r. split.
    + rewrite (runJourney_indep _ _ _ this this1), Hr. reflexivity.
    + rewrite (@run_loop_lookup_frame W options post _ this2 final
                 (Journey.name journey) Hdry Hpost Hc).
      apply lookup_assign_same.
  - rewrite (@run_loop_throw W options journey post result1 this1 _ _ _ Hdry Hf Hr)
      in Hloop.
    discriminate Hloop.
Qed.

Lemma journey_result_recorded_witness :
  exists r,
    completion (runJourney (World.gatherer Sample.world Sample.J1) Sample.J1
                  Sample.options Sample.idle) = Normal r /\
    lookup [("J1", JourneyResult.mk succeeded None);
            ("J", JourneyResult.mk failed (Some Sample.x))]
      (Journey.name Sample.J1) = Some r.
Proof.
  apply (@journey_result_recorded Sample.world Sample.options [] Sample.J1 [Sample.J]
           [] Sample.idle _ eq_refl eq_refl).
  - intros later [<-|[]] _. discriminate.
  - reflexivity.
Defined.

(** ** The run orchestrator: completion and reset *)

Lemma events_no_end_hooks cbs : ~ In Ev_end (events (map CallHook cbs)).
Proof. rewrite events_hooks. intros []. Qed.

(** On an instance that is not active, [run] emits [end] exactly when it
    returns; it is then the last action, after [reset]: the instance is
    idle again, with no journeys and no current journey, and with its
    run-level hooks kept. *)
Theorem end_event_iff_returned W options this :
  Runner.active this = false ->
  (In Ev_end (events (trace_of (run W options this))) <->
   exists final, completion (run W options this) = Normal final) /\
  (forall final,
      completion (run W options this) = Normal final ->
      state_of (run W options this) = Runner.mk false None [] (Runner.hooks this) /\
      exists before,
        trace_of (run W options this) = before ++ [Emit Ev_end] /\
        ~ In Ev_end (events before)).
Proof.
  intros Hactive.
  destruct (run_loop_frame W options (Runner.journeys this) [] (set_active true this))
    as [[cj Hstate] Hact].
  pose proof (loopAction_no_end _ Hact) as Hloop.
  assert (Hopen : ~ In Ev_end (events (openingTrace W options this))).
  { unfold openingTrace. rewrite events_app, events_hooks. simpl.
    intros [H|[]]. discriminate H. }
  rewrite (run_eq W options this Hactive).
  destruct (firstRejection (SuiteHooks.beforeAll (Runner.hooks this))) as [e|].
  { autorewrite with result. split; [|intros final H; discriminate H].
    split; [intros H; contradiction|intros [final H]; discriminate H]. }
  cbv zeta. rewrite Hstate. cbn [set_currentJourney set_active Runner.hooks].
  destruct (completion (run_loop W options (Runner.journeys this) []
                          (set_active true this))) as [result|e].
  2:{ autorewrite with result. split; [|intros final H; discriminate H].
      split; [|intros [final H]; discriminate H].
      rewrite events_app. intros H. apply in_app_or in H. tauto. }
  destruct (firstRejection (SuiteHooks.afterAll (Runner.hooks this))) as [e|];
    autorewrite with result.
  - split; [|intros final H; discriminate H].
    split; [|intros [final H]; discriminate H].
    rewrite !events_app, events_hooks, app_nil_r. intros H.
    apply in_app_or in H. tauto.
  - split.
    + split; [eauto|]. intros _. rewrite !events_app.
      apply in_or_app. right. apply in_or_app. right. apply in_or_app. right.
      simpl. auto.
    + intros final _. split; [reflexivity|].
      exists (openingTrace W options this
              ++ trace_of (run_loop W options (Runner.journeys this) []
                             (set_active true this))
              ++ map CallHook (SuiteHooks.afterAll (Runner.hooks this))).
      split; [rewrite <- !app_assoc; reflexivity|].
      rewrite !events_app, events_hooks, app_nil_r. intros H.
      apply in_app_or in H. tauto.
Qed.

Lemma end_event_iff_returned_witness :
  In Ev_end (events (trace_of (run Sample.world Sample.options Sample.idle))) <->
  exists final, completion (run Sample.world Sample.options Sample.idle) = Normal final.
Proof.
  apply (@end_event_iff_returned Sample.world Sample.options Sample.idle).
  reflexivity.
Defined.

(** A run that returned leaves the instance idle: not active, without a
    current journey and without journeys, its hooks kept.  On an instance as
    a further run finds it then (idle and without journeys as [after] is,
    its hooks settling as they do in that run), a run whose hooks do not
    throw, whatever its options, announces zero journeys, calls the
    [beforeAll] and the [afterAll] hooks, executes nothing, emits [end] and
    returns the empty mapping. *)
Theorem rerun_after_completion W options this final :
  Runner.active this = false ->
  completion (run W options this) = Normal final ->
  let after := state_of (run W options this) in
  after = Runner.mk false None [] (Runner.hooks this) /\
  forall W' options' next,
    Runner.active next = Runner.active after ->
    Runner.journeys next = Runner.journeys after ->
    firstRejection (SuiteHooks.beforeAll (Runner.hooks next)) = None ->
    firstRejection (SuiteHooks.afterAll (Runner.hooks next)) = None ->
    run W' options' next =
      (Normal [], Runner.mk false None [] (Runner.hooks next),
       [NewReporter (resolveReporter (World.reporters W') (RunOptions.reporter options'));
        Emit (Ev_start 0)]
         ++ map CallHook (SuiteHooks.beforeAll (Runner.hooks next))
         ++ map CallHook (SuiteHooks.afterAll (Runner.hooks next))
         ++ [Emit Ev_end]).
Proof.
  intros Hactive H after.
  assert (Hafter : after = Runner.mk false None [] (Runner.hooks this)).
  { subst after.
    destruct (run_loop_frame W options (Runner.journeys this) [] (set_active true this))
      as [[cj Hstate] _].
    rewrite (run_eq W options this Hactive) in *.
    destruct (firstRejection (SuiteHooks.beforeAll (Runner.hooks this))) as [e|];
      [discriminate H|].
    cbv zeta in *. rewrite Hstate in *.
    cbn [set_currentJourney set_active Runner.hooks] in *.
    destruct (completion (run_loop W options (Runner.journeys this) []
                            (set_active true this))) as [result|e];
      [|discriminate H].
    destruct (firstRejection (SuiteHooks.afterAll (Runner.hooks this))) as [e|];
      [discriminate H|].
    autorewrite with result. reflexivity. }
  split; [exact Hafter|].
  intros W' options' next Hidle Hnone Hb Ha. rewrite Hafter in Hidle, Hnone.
  cbn [Runner.active Runner.journeys] in Hidle, Hnone.
  rewrite run_eq by exact Hidle. unfold openingTrace.
  rewrite Hb, Hnone. cbn [run_loop]. unfold ret.
  cbv zeta. autorewrite with result. cbn [set_active Runner.hooks]. rewrite Ha.
  cbn [List.length app]. rewrite <- ?app_assoc. reflexivity.
Qed.

Lemma rerun_after_completion_witness :
  state_of (run Sample.world Sample.options Sample.idle)
    = Runner.mk false None [] (Runner.hooks Sample.idle) /\
  run Sample.world Faulty.dry (state_of (run Sample.world Sample.options Sample.idle)) =
    (Normal [], Runner.mk false None [] (Runner.hooks Sample.idle),
     [NewReporter (resolveReporter (World.reporters Sample.world)
                     (RunOptions.reporter Faulty.dry));
      Emit (Ev_start 0)]
       ++ map CallHook (SuiteHooks.beforeAll (Runner.hooks Sample.idle))
       ++ map CallHook (SuiteHooks.afterAll (Runner.hooks Sample.idle))
       ++ [Emit Ev_end]).
Proof.
  destruct (@rerun_after_completion Sample.world Sample.options Sample.idle
              [("J1", JourneyResult.mk succeeded None);
               ("J", JourneyResult.mk failed (Some Sample.x))]
              eq_refl eq_refl) as [Hafter Hnext].
  split; [exact Hafter|].
  apply (Hnext Sample.world Faulty.dry
           (state_of (run Sample.world Sample.options Sample.idle)));
    reflexivity.
Defined.

(** ** Registration: addJourney, addHook *)

Lemma last_cons {A} (a : A) l d : last (a :: l) d = last l a.
Proof.
  revert a d. induction l as [|b l IH]; intros a d; [reflexivity|].
  change (last (a :: b :: l) d) with (last (b :: l) d).
  rewrite (IH b d), (IH b a). reflexivity.
Qed.

Lemma addJourneys_eq journeys this :
  addJourneys journeys this =
    (Normal tt,
     Runner.mk (Runner.active this)
       (last (map Some journeys) (Runner.currentJourney this))
       (Runner.journeys this ++ journeys) (Runner.hooks this),
     []).
Proof.
  revert this. induction journeys as [|journey rest IH]; intros this.
  - simpl. rewrite app_nil_r. destruct this. reflexivity.
  - cbn [addJourneys]. unfold bind, addJourney, modify. rewrite IH.
    cbn [Runner.active Runner.currentJourney Runner.journeys Runner.hooks map app].
    rewrite last_cons, <- app_assoc. reflexivity.
Qed.

(** Journeys registered one after the other are appended to the list in
    that order, the last one becoming the current journey; nothing else of
    the instance changes and nothing is emitted (on an active instance
    too).  The next run on an idle instance announces them all: its
    [start] event counts the journeys registered before and now. *)
Theorem journeys_registered_in_order W options journeys this :
  addJourneys journeys this =
    (Normal tt,
     Runner.mk (Runner.active this)
       (last (map Some journeys) (Runner.currentJourney this))
       (Runner.journeys this ++ journeys) (Runner.hooks this),
     []) /\
  (Runner.active this = false ->
   exists rest,
     trace_of (run W options (state_of (addJourneys journeys this))) =
       NewReporter (resolveReporter (World.reporters W) (RunOptions.reporter options))
         :: Emit (Ev_start (List.length (Runner.journeys this) + List.length journeys))
         :: map CallHook (SuiteHooks.beforeAll (Runner.hooks this)) ++ rest).
Proof.
  split; [apply addJourneys_eq|]. intros Hactive.
  rewrite addJourneys_eq. autorewrite with result.
  rewrite run_eq by exact Hactive. unfold openingTrace.
  cbn [Runner.hooks Runner.journeys]. rewrite length_app.
  destruct (firstRejection (SuiteHooks.beforeAll (Runner.hooks this))).
  { exists []. autorewrite with result. rewrite app_nil_r. reflexivity. }
  cbv zeta.
  match goal with
  | |- context [completion ?l] => destruct (completion l)
  end.
  2:{ autorewrite with result. eexists. simpl. reflexivity. }
  match goal with
  | |- context [firstRejection ?l] => destruct (firstRejection l)
  end; autorewrite with result; eexists; simpl; reflexivity.
Qed.

Lemma journeys_registered_in_order_witness :
  exists rest,
    trace_of (run Sample.world Sample.options
                (state_of (addJourneys [Sample2.Jy] Sample.idle))) =
      NewReporter (resolveReporter (World.reporters Sample.world)
                     (RunOptions.reporter Sample.options))
        :: Emit (Ev_start (List.length (Runner.journeys Sample.idle)
                           + List.length [Sample2.Jy]))
        :: map CallHook (SuiteHooks.beforeAll (Runner.hooks Sample.idle)) ++ rest.
Proof.
  apply (proj2 (journeys_registered_in_order Sample.world Sample.options
                  [Sample2.Jy] Sample.idle)).
  reflexivity.
Defined.




(** ** push/monitor.ts *)

Lemma translateLocation_cons E loc locs :
  translateLocation E (loc :: locs) =
    (if Boolean (PushEnv.LocationsMap E loc)
     then strings [PushEnv.LocationsMap E loc] else [])
    ++ translateLocation E locs.
Proof.
  unfold translateLocation. cbn [map filter].
  destruct (PushEnv.LocationsMap E loc) as [s|]; simpl; [|reflexivity].
  destruct (negb (String.eqb s "")); reflexivity.
Qed.

Lemma Boolean_true v : Boolean v = true <-> exists s, v = Some s /\ s <> "".
Proof.
  destruct v as [s|]; simpl.
  - destruct (String.eqb_spec s ""); simpl; split.
    + discriminate.
    + intros (s' & Hs & Hne). inversion Hs. congruence.
    + eauto.
    + reflexivity.
  - split; [discriminate|]. intros (s & Hs & _). discriminate Hs.
Qed.

(** [translateLocation] gives the locations the table knows, and only
    them: a label is in the result exactly when it is the non-empty entry
    of one of the given locations; locations without an entry are dropped
    silently, so the result may be shorter but never longer; and the
    translation of a concatenation is the concatenation of the
    translations. *)
Theorem translateLocation_keeps_known_only E locations :
  (forall label,
      In label (translateLocation E locations) <->
      exists loc, In loc locations /\
                  PushEnv.LocationsMap E loc = Some label /\ label <> "") /\
  List.length (translateLocation E locations) <= List.length locations /\
  (forall more,
      translateLocation E (locations ++ more) =
      translateLocation E locations ++ translateLocation E more).
Proof.
  split; [|split].
  - induction locations as [|loc rest IH]; intros label.
    + simpl. split; [tauto|]. intros (loc & [] & _).
    + rewrite translateLocation_cons, in_app_iff, IH.
      pose proof (Boolean_true (PushEnv.LocationsMap E loc)) as Hb.
      destruct (Boolean (PushEnv.LocationsMap E loc)).
      * destruct (proj1 Hb eq_refl) as (s & Hs & Hne). rewrite Hs. simpl. split.
        -- intros [[<-|[]]|(l & Hl & Hm)]; [exists loc|exists l]; auto.
        -- intros (l & [<-|Hl] & Hm & Hne').
           ++ left. left. congruence.
           ++ right. exists l. auto.
      * simpl. split.
        -- intros [[]|(l & Hl & Hm)]. exists l. auto.
        -- intros (l & [<-|Hl] & Hm & Hne').
           ++ assert (false = true) by (apply Hb; eauto). discriminate.
           ++ right. exists l. auto.
  - induction locations as [|loc rest IH]; [simpl; lia|].
    rewrite translateLocation_cons, length_app.
    destruct (Boolean (PushEnv.LocationsMap E loc)); simpl.
    + destruct (PushEnv.LocationsMap E loc); simpl; lia.
    + lia.
  - intros more. induction locations as [|loc rest IH]; [reflexivity|].
    cbn [app]. rewrite !translateLocation_cons, IH, app_assoc. reflexivity.
Qed.

(** When every given location has a non-empty entry in the table, nothing
    is dropped: the result is the list of the entries, in the order of the
    locations and with their repetitions. *)
Theorem translateLocation_lossless E locations :
  (forall loc, In loc locations ->
     exists label, PushEnv.LocationsMap E loc = Some label /\ label <> "") ->
  map Some (translateLocation E locations) = map (PushEnv.LocationsMap E) locations.
Proof.
  intros H. induction locations as [|loc rest IH]; [reflexivity|].
  rewrite translateLocation_cons, map_app, IH by (intros l Hl; apply H; right; exact Hl).
  destruct (H loc (or_introl eq_refl)) as (label & Hlabel & Hne).
  assert (Hb : Boolean (PushEnv.LocationsMap E loc) = true)
    by (apply Boolean_true; eauto).
  rewrite Hb, Hlabel. cbn [map]. rewrite Hlabel. reflexivity.
Qed.

Lemma translateLocation_lossless_witness :
  map Some (translateLocation SamplePush.env ["germany"; "japan"; "germany"]) =
  map (PushEnv.LocationsMap SamplePush.env) ["germany"; "japan"; "germany"].
Proof.
  apply (translateLocation_lossless SamplePush.env ["germany"; "japan"; "germany"]).
  intros loc [<-|[<-|[<-|[]]]]; eexists; (split; [reflexivity|discriminate]).
Defined.

Lemma buildMonitorSchema_loop_returns E monitors schemas result :
  fst (buildMonitorSchema_loop E (bundlePath E) monitors schemas) = Normal result ->
  exists news,
    result = schemas ++ news /\
    Forall2 (isSchemaOf E) monitors news /\
    snd (buildMonitorSchema_loop E (bundlePath E) monitors schemas)
      = map (buildOf E) monitors.
Proof.
  revert schemas.
  induction monitors as [|monitor rest IH]; intros schemas H; cbn [buildMonitorSchema_loop] in *.
  - exists []. inversion H. rewrite app_nil_r. repeat split. constructor.
  - destruct (PushEnv.build E (Monitor.file monitor) (outPath E (bundlePath E) monitor))
      as [content|e] eqn:Hbuild; [|discriminate H].
    destruct (buildMonitorSchema_loop E (bundlePath E) rest
                (schemas ++ [schemaOf E monitor content])) as [c t] eqn:Hloop.
    cbn [fst snd] in *. subst c.
    destruct (IH (schemas ++ [schemaOf E monitor content])) as (news & Hres & Hall & Ht).
    { rewrite Hloop. reflexivity. }
    rewrite Hloop in Ht. cbn [snd] in Ht.
    exists (schemaOf E monitor content :: news).
    rewrite <- app_assoc in Hres. split; [exact Hres|]. split.
    + constructor; [|exact Hall]. exists content. auto.
    + cbn [map]. rewrite Ht. reflexivity.
Qed.

(** When [buildMonitorSchema] returns, there was at least one monitor, the
    bundle directory was made first, every monitor was bundled once, in
    order, to [<bundles>/<name>.zip], and the result has one schema per
    monitor, in order: the name and the other settings of its config, the
    content the bundler returned for it, its locations translated, and its
    filter. *)
Theorem buildMonitorSchema_returns E monitors schemas :
  fst (buildMonitorSchema E monitors) = Normal schemas ->
  monitors <> [] /\
  Forall2 (isSchemaOf E) monitors schemas /\
  snd (buildMonitorSchema E monitors) =
    Mkdir (bundlePath E) :: map (buildOf E) monitors.
Proof.
  intros H. unfold buildMonitorSchema in *.
  destruct monitors as [|monitor rest]; [discriminate H|].
  split; [discriminate|].
  destruct (PushEnv.mkdir E (bundlePath E)); [|discriminate H].
  destruct (buildMonitorSchema_loop E (bundlePath E) (monitor :: rest) [])
    as [c t] eqn:Hloop.
  cbn [fst snd] in *. subst c.
  destruct (@buildMonitorSchema_loop_returns E (monitor :: rest) [] schemas)
    as (news & Hres & Hall & Ht).
  { rewrite Hloop. reflexivity. }
  simpl in Hres. subst news. rewrite Hloop in Ht. cbn [snd] in Ht.
  split; [exact Hall|]. rewrite Ht. reflexivity.
Qed.

Lemma buildMonitorSchema_returns_witness :
  Forall2 (isSchemaOf SamplePush.env) [SamplePush.m1; SamplePush.m3]
    [MonitorSchema.mk "a" [] "UEsDBA==" ["asia-northeast1-a"; "europe-west3-a"] [];
     MonitorSchema.mk "c" [("schedule", "10")] "UEsDBA==" [] []].
Proof.
  apply (@buildMonitorSchema_returns SamplePush.env [SamplePush.m1; SamplePush.m3]).
  reflexivity.
Defined.

Lemma buildMonitorSchema_loop_stops E pre monitor post schemas e :
  (forall earlier, In earlier pre -> exists content,
      PushEnv.build E (Monitor.file earlier) (outPath E (bundlePath E) earlier)
        = Normal content) ->
  PushEnv.build E (Monitor.file monitor) (outPath E (bundlePath E) monitor) = Throw e ->
  buildMonitorSchema_loop E (bundlePath E) (pre ++ monitor :: post) schemas =
    (Throw e, map (buildOf E) (pre ++ [monitor])).
Proof.
  intros Hpre Hm. revert schemas.
  induction pre as [|p pre IH]; intros schemas; cbn [app buildMonitorSchema_loop map].
  - rewrite Hm. reflexivity.
  - destruct (Hpre p (or_introl eq_refl)) as [content Hp]. rewrite Hp.
    rewrite IH by (intros q Hq; apply Hpre; right; exact Hq). reflexivity.
Qed.

(** The first monitor whose bundle fails ends [buildMonitorSchema]: the
    error of the bundler is thrown, no schema is returned (those built so
    far are dropped), and the monitors after it are never bundled. *)
Theorem buildMonitorSchema_stops_at_first_failure E pre monitor post e :
  PushEnv.mkdir E (bundlePath E) = Normal tt ->
  (forall earlier, In earlier pre -> exists content,
      PushEnv.build E (Monitor.file earlier) (outPath E (bundlePath E) earlier)
        = Normal content) ->
  PushEnv.build E (Monitor.file monitor) (outPath E (bundlePath E) monitor) = Throw e ->
  buildMonitorSchema E (pre ++ monitor :: post) =
    (Throw e, Mkdir (bundlePath E) :: map (buildOf E) (pre ++ [monitor])).
Proof.
  intros Hmk Hpre Hm. unfold buildMonitorSchema.
  destruct (pre ++ monitor :: post) as [|first rest] eqn:Hlist.
  { destruct pre; discriminate Hlist. }
  rewrite Hmk, <- Hlist, (@buildMonitorSchema_loop_stops E pre monitor post [] e Hpre Hm).
  reflexivity.
Qed.

Lemma buildMonitorSchema_stops_at_first_failure_witness :
  buildMonitorSchema SamplePush.env ([SamplePush.m1] ++ SamplePush.m2 :: [SamplePush.m3]) =
    (Throw (mkError "syntax"),
     Mkdir (bundlePath SamplePush.env)
       :: map (buildOf SamplePush.env) ([SamplePush.m1] ++ [SamplePush.m2])).
Proof.
  apply (@buildMonitorSchema_stops_at_first_failure SamplePush.env [SamplePush.m1]
           SamplePush.m2 [SamplePush.m3] (mkError "syntax") eq_refl).
  - intros earlier [<-|[]]. eexists. reflexivity.
  - reflexivity.
Defined.

(** Nothing is bundled without a monitor and a bundle directory: with no
    monitor, [buildMonitorSchema] throws "No Monitors found" before it
    touches the file system; when the directory cannot be made, it throws
    the error of [mkdir] and calls the bundler for no monitor.  In every
    other case the first monitor at least is handed to the bundler. *)
Theorem buildMonitorSchema_fails_early E monitors :
  (monitors = [] ->
   buildMonitorSchema E monitors = (Throw (mkError "No Monitors found"), [])) /\
  (forall e,
      monitors <> [] ->
      PushEnv.mkdir E (bundlePath E) = Throw e ->
      buildMonitorSchema E monitors = (Throw e, [Mkdir (bundlePath E)])) /\
  ((exists file out, In (Build file out) (snd (buildMonitorSchema E monitors))) <->
   monitors <> [] /\ PushEnv.mkdir E (bundlePath E) = Normal tt).
Proof.
  split; [intros ->; reflexivity|]. split.
  - intros e Hne Hmk. unfold buildMonitorSchema.
    destruct monitors; [contradiction|]. rewrite Hmk. reflexivity.
  - unfold buildMonitorSchema. destruct monitors as [|monitor rest].
    { simpl. split; [intros (f & o & [])|intros [H _]; contradiction]. }
    destruct (PushEnv.mkdir E (bundlePath E)) as [[]|e].
    + split; [intros _; split; [discriminate|reflexivity]|]. intros _.
      exists (Monitor.file monitor), (outPath E (bundlePath E) monitor).
      cbn [buildMonitorSchema_loop].
      destruct (PushEnv.build E (Monitor.file monitor) _).
      * destruct (buildMonitorSchema_loop E (bundlePath E) rest _). simpl. auto.
      * simpl. auto.
    + split; [|intros [_ H]; discriminate H].
      intros (f & o & [H|[]]). discriminate H.
Qed.

Lemma buildMonitorSchema_fails_early_witness :
  buildMonitorSchema SamplePush.env [] = (Throw (mkError "No Monitors found"), []).
Proof.
  apply (proj1 (buildMonitorSchema_fails_early SamplePush.env [])). reflexivity.
Defined.
